(** * nmapMatrix: segmentation matrix over .gnmap scan files

    A shallow embedding of [nmapMatrix.py].  The script is one linear
    pass: load every scan file into two dictionaries keyed by the segment
    name derived from the file name, sort the union of the host sets,
    order the segments by type, and render the same table twice (ANSI
    text on standard output, then an HTML file).

    Conventions of the embedding:
    - a Python [str] is a [string]; a character is a code point below 256
      and [isspace]/[lower] follow Python on that range;
    - a [dict] is an insertion-ordered association list with unique keys
      (assignment to an existing key keeps its position);
    - a [set] of hosts is a [gset string]; the order in which Python
      iterates a set is not fixed by the language, so it is a parameter
      ([set_iter]) of the program;
    - an uncaught exception is a [Raise] result; the script proper runs
      in a small state-and-error monad over the two output channels;
    - input and output themselves are outside the model: a scan file is
      the text that opening and decoding it deliver, and the two channels
      accept every write.  The exceptions of the model are those that the
      statements of the script raise ([parts[1]], [max], a dictionary
      lookup), not those of the operating system or of a codec. *)

From Stdlib Require Import Ascii NArith ZArith.
From stdpp Require Import base option list sorting strings gmap.

(** ** Python string primitives *)

Module Str.

(** [str.isspace] on one character (code points below 256). *)
Definition isspace (c : ascii) : bool :=
  let n := N_of_ascii c in
  ((9 <=? n) && (n <=? 13) || (28 <=? n) && (n <=? 32)
   || (n =? 133) || (n =? 160))%N.

(** [str.lower] on one character (code points below 256). *)
Definition lower_char (c : ascii) : ascii :=
  let n := N_of_ascii c in
  if ((65 <=? n) && (n <=? 90)
      || (192 <=? n) && (n <=? 222) && negb (n =? 215))%N
  then ascii_of_N (n + 32) else c.

Fixpoint lower (s : string) : string :=
  match s with
  | "" => ""
  | String c s' => String (lower_char c) (lower s')
  end.

(** [s.startswith(p)] *)
Definition startswith (s p : string) : bool := String.prefix p s.

(** [sub in s] *)
Fixpoint contains (sub s : string) : bool :=
  String.prefix sub s ||
  match s with
  | "" => false
  | String _ s' => contains sub s'
  end.

(** [s[n:]] *)
Fixpoint slice_from (n : nat) (s : string) : string :=
  match n, s with
  | O, _ => s
  | S n', String _ s' => slice_from n' s'
  | S _, "" => ""
  end.

(** [s[:n]] *)
Fixpoint slice_to (n : nat) (s : string) : string :=
  match n, s with
  | S n', String c s' => String c (slice_to n' s')
  | _, _ => ""
  end.

Fixpoint lstrip (s : string) : string :=
  match s with
  | String c s' => if isspace c then lstrip s' else s
  | "" => ""
  end.

Definition rstrip (s : string) : string :=
  String.rev (lstrip (String.rev s)).

(** [s.strip()] *)
Definition strip (s : string) : string := rstrip (lstrip s).

Definition flush (tok : string) : list string :=
  match tok with
  | "" => []
  | _ => [String.rev tok]
  end.

(** [s.split()]: the maximal runs of non-whitespace characters.  [tok]
    holds the current run, last character first. *)
Fixpoint split_go (tok s : string) : list string :=
  match s with
  | "" => flush tok
  | String c s' =>
      if isspace c then flush tok ++ split_go "" s'
      else split_go (String c tok) s'
  end.

Definition split (s : string) : list string := split_go "" s.

(** [sep.join(l)] *)
Fixpoint join (sep : string) (l : list string) : string :=
  match l with
  | [] => ""
  | [x] => x
  | x :: l' => x +:+ sep +:+ join sep l'
  end.

(** [s * n] *)
Fixpoint repeat (s : string) (n : nat) : string :=
  match n with
  | O => ""
  | S n' => s +:+ repeat s n'
  end.

(** [s.rfind(c)] for a one-character [c]: the index of the last
    occurrence, [-1] when there is none. *)
Fixpoint rfind_go (c : ascii) (s : string) (i last : Z) : Z :=
  match s with
  | "" => last
  | String a s' =>
      rfind_go c s' (i + 1)%Z (if decide (a = c) then i else last)
  end.

Definition rfind (c : ascii) (s : string) : Z := rfind_go c s 0%Z (-1)%Z.

(** [s[i:j]] for [0 <= i]. *)
Definition slice (i j : Z) (s : string) : string :=
  slice_to (Z.to_nat (j - i)) (slice_from (Z.to_nat i) s).

(** Text-mode reading translates ["\r\n"] and a lone ["\r"] to
    ["\n"]. *)
Fixpoint universal_newlines (s : string) : string :=
  match s with
  | "" => ""
  | String c s' =>
      if decide (c = "013"%char) then
        match s' with
        | String "010"%char _ => universal_newlines s'
        | _ => String "010"%char (universal_newlines s')
        end
      else String c (universal_newlines s')
  end.

(** Iterating a text file yields its lines, each with its terminator.
    [cur] holds the current line, last character first. *)
Fixpoint lines_go (cur s : string) : list string :=
  match s with
  | "" => flush cur
  | String c s' =>
      if decide (c = "010"%char)
      then String.rev (String c cur) :: lines_go "" s'
      else lines_go (String c cur) s'
  end.

Definition lines (s : string) : list string := lines_go "" s.

(** The spec's reading of "starts case-insensitively with [p]": the
    leading characters agree with those of [p] up to case. *)
Fixpoint starts_ci (p s : string) : bool :=
  match p, s with
  | "", _ => true
  | String a p', String b s' =>
      bool_decide (lower_char a = lower_char b) && starts_ci p' s'
  | String _ _, "" => false
  end.

End Str.

(** ** [os.path.splitext] (POSIX flavour) *)

(** The loop that skips the leading dots of the last path component:
    [true] when every character of [s] is a dot. *)
Fixpoint all_dots (s : string) : bool :=
  match s with
  | "" => true
  | String c s' => bool_decide (c = "."%char) && all_dots s'
  end.

Definition splitext (p : string) : string * string :=
  let sepIndex := Str.rfind "/"%char p in
  let dotIndex := Str.rfind "."%char p in
  if bool_decide (dotIndex > sepIndex)%Z then
    if all_dots (Str.slice (sepIndex + 1)%Z dotIndex p) then (p, "")
    else (Str.slice 0%Z dotIndex p, Str.slice_from (Z.to_nat dotIndex) p)
  else (p, "").

(** ** Segment classification by file name *)

Inductive seg_type := pci | non_pci | unknown.

Global Instance seg_type_eq_dec : EqDecision seg_type.
Proof. solve_decision. Defined.

Definition parse_segment (filename : string) : seg_type * string :=
  let base := (splitext filename).1 in
  if Str.startswith (Str.lower base) "pci -" then
    (pci, Str.strip (Str.slice_from 6 base))
  else if Str.startswith (Str.lower base) "non pci -" then
    (non_pci, Str.strip (Str.slice_from 10 base))
  else (unknown, base).

(** ** Exceptions *)

Inductive exn := IndexError | ValueError | KeyError.

Inductive result (A : Type) : Type :=
  | Ok (a : A)
  | Raise (e : exn).
Global Arguments Ok {A} a.
Global Arguments Raise {A} e.

Global Instance result_ret : MRet result := fun A a => Ok a.
Global Instance result_bind : MBind result := fun A B f m =>
  match m with
  | Ok a => f a
  | Raise e => Raise e
  end.

(** A [for] loop that threads the loop-carried state and stops at the
    first exception. *)
Fixpoint for_each {A S : Type} (body : S -> A -> result S) (s : S)
    (l : list A) : result S :=
  match l with
  | [] => Ok s
  | x :: l' => s' ← body s x; for_each body s' l'
  end.

(** ** Dictionaries *)

Definition dict (V : Type) : Type := list (string * V).

(** [d[k] = v] *)
Fixpoint dict_set {V : Type} (k : string) (v : V) (d : dict V) : dict V :=
  match d with
  | [] => [(k, v)]
  | (k', v') :: d' =>
      if decide (k' = k) then (k', v) :: d' else (k', v') :: dict_set k v d'
  end.

(** [d.get(k)] *)
Fixpoint dict_get {V : Type} (k : string) (d : dict V) : option V :=
  match d with
  | [] => None
  | (k', v') :: d' => if decide (k' = k) then Some v' else dict_get k d'
  end.

(** [d[k]] *)
Definition getitem {V : Type} (k : string) (d : dict V) : result V :=
  match dict_get k d with
  | Some v => Ok v
  | None => Raise KeyError
  end.

Definition keys {V : Type} (d : dict V) : list string := d.*1.

(** ** Loading the scan files *)

(** A discovered file: its name and its text as opened and decoded. *)
Record scan_file := { file_name : string; file_text : string }.

Record tables := {
  segment_hosts : dict (gset string);
  segment_types : dict seg_type
}.

(** The body of the loop over the lines of one file. *)
Definition scan_line (hosts : gset string) (line : string)
    : result (gset string) :=
  if Str.startswith line "Host:" then
    let parts := Str.split line in
    match parts !! 1%nat with
    | None => Raise IndexError
    | Some ip =>
        if Str.contains "Ports:" line && Str.contains "open" line
        then Ok (hosts ∪ {[ ip ]})
        else Ok hosts
    end
  else Ok hosts.

Definition file_lines (f : scan_file) : list string :=
  Str.lines (Str.universal_newlines (file_text f)).

Definition scan_hosts (f : scan_file) : result (gset string) :=
  for_each scan_line ∅ (file_lines f).

(** The body of the loop over the discovered files. *)
Definition load_file (t : tables) (gnmap_file : scan_file) : result tables :=
  let '(seg_type, seg_name) := parse_segment (file_name gnmap_file) in
  let types := dict_set seg_name seg_type (segment_types t) in
  hosts ← scan_hosts gnmap_file;
  Ok {| segment_hosts := dict_set seg_name hosts (segment_hosts t);
        segment_types := types |}.

Definition no_tables : tables :=
  {| segment_hosts := []; segment_types := [] |}.

Definition load (gnmap_files : list scan_file) : result tables :=
  for_each load_file no_tables gnmap_files.

(** ** Classification of a host *)

Inductive tier := critical | elevated | normal.

Global Instance tier_eq_dec : EqDecision tier.
Proof. solve_decision. Defined.

(** [h in segment_hosts[seg]], for a key [seg] of the dictionary *)
Definition host_in (t : tables) (h seg : string) : bool :=
  match dict_get seg (segment_hosts t) with
  | Some hosts => bool_decide (h ∈ hosts)
  | None => false
  end.

(** [[seg for seg in segment_hosts if h in segment_hosts[seg]]] *)
Definition segments_reaching (t : tables) (h : string) : list string :=
  filter (fun seg => host_in t h seg) (keys (segment_hosts t)).

(** [any(segment_types.get(seg, "") == typ for seg in segs)] *)
Definition has_type (t : tables) (typ : seg_type) (segs : list string) : bool :=
  existsb (fun seg => bool_decide (dict_get seg (segment_types t) = Some typ))
          segs.

(** The three-way branch that both renderers take for a reachable cell. *)
Definition host_tier (t : tables) (h : string) : tier :=
  let reaching := segments_reaching t h in
  let has_pci := has_type t pci reaching in
  let has_non_pci := has_type t non_pci reaching in
  if has_pci && has_non_pci then critical
  else if bool_decide (1 < length reaching) then elevated
  else normal.

(** ** Ordering of the segments *)

Definition pci_segments (t : tables) : list string :=
  (filter (fun kv => kv.2 = pci) (segment_types t)).*1.

Definition non_pci_segments (t : tables) : list string :=
  (filter (fun kv => kv.2 = non_pci) (segment_types t)).*1.

Definition unknown_segments (t : tables) : list string :=
  (filter (fun kv => kv.2 ∉ [pci; non_pci]) (segment_types t)).*1.

Definition ordered_segments (t : tables) : list string :=
  pci_segments t ++ non_pci_segments t ++ unknown_segments t.

(** ** Terminal colours and padding *)

Definition ESC : ascii := "027"%char.
Definition RED : string := String ESC "[91m".
Definition YELLOW : string := String ESC "[93m".
Definition GREEN : string := String ESC "[92m".
Definition CYAN : string := String ESC "[96m".
Definition RESET : string := String ESC "[0m".
Definition BOLD : string := String ESC "[1m".

Definition is_param (c : ascii) : bool :=
  let n := N_of_ascii c in ((48 <=? n) && (n <=? 57) || (n =? 59))%N.

Fixpoint skip_params (s : string) : string :=
  match s with
  | String c s' => if is_param c then skip_params s' else s
  | "" => ""
  end.

(** The regular expression [\x1b\[[0-9;]*m] tried at the head of [s]:
    what follows the match.  The class is matched greedily, and the
    closing [m] is not in the class, so there is nothing to backtrack. *)
Definition match_ansi (s : string) : option string :=
  match s with
  | String c0 (String c1 s') =>
      if bool_decide (c0 = ESC) && bool_decide (c1 = "["%char) then
        match skip_params s' with
        | String c2 rest => if bool_decide (c2 = "m"%char) then Some rest else None
        | "" => None
        end
      else None
  | _ => None
  end.

Fixpoint strip_ansi_go (fuel : nat) (s : string) : string :=
  match fuel, s with
  | S fuel', String c s' =>
      match match_ansi s with
      | Some rest => strip_ansi_go fuel' rest
      | None => String c (strip_ansi_go fuel' s')
      end
  | _, _ => ""
  end.

(** Every step consumes at least one character, so the length of [s] is
    enough fuel ([strip_ansi_go_fuel]). *)
Definition strip_ansi (s : string) : string :=
  strip_ansi_go (String.length s) s.

Definition pad_cell (s : string) (width : nat) : string :=
  let real_len := String.length (strip_ansi s) in
  s +:+ Str.repeat " " (width - real_len).

(** [max] of a generator: [ValueError] when it yields nothing. *)
Definition py_max (l : list nat) : result nat :=
  match l with
  | [] => Raise ValueError
  | x :: l' => Ok (foldl Nat.max x l')
  end.

(** ** The two output channels *)

Record channels := {
  stdout : string;
  html : option string   (* segmentation_matrix.html, once opened *)
}.

Definition script (A : Type) : Type := channels -> result A * channels.

Global Instance script_ret : MRet script := fun A a w => (Ok a, w).
Global Instance script_bind : MBind script := fun A B f m w =>
  match m w with
  | (Ok a, w') => f a w'
  | (Raise e, w') => (Raise e, w')
  end.

Definition lift {A : Type} (r : result A) : script A := fun w => (r, w).

Definition print (s : string) : script unit := fun w =>
  (Ok (), {| stdout := stdout w +:+ s +:+ String "010"%char "";
             html := html w |}).

(** [open("segmentation_matrix.html", "w")] *)
Definition fopen : script unit := fun w =>
  (Ok (), {| stdout := stdout w; html := Some "" |}).

Definition fwrite (s : string) : script unit := fun w =>
  (Ok (), {| stdout := stdout w;
             html := (fun old => old +:+ s) <$> html w |}).

Fixpoint for_ {A : Type} (l : list A) (body : A -> script unit) : script unit :=
  match l with
  | [] => mret ()
  | x :: l' => body x;; for_ l' body
  end.

Definition NL : string := String "010"%char "".

(** ** Cells *)

Definition text_colour (r : tier) : string :=
  match r with
  | critical => RED
  | elevated => YELLOW
  | normal => GREEN
  end.

Definition html_colour (r : tier) : string :=
  match r with
  | critical => "#ffcccc"
  | elevated => "#ffff99"
  | normal => "#ccffcc"
  end.

Definition text_cell (t : tables) (h segment : string) : result string :=
  hosts ← getitem segment (segment_hosts t);
  if bool_decide (h ∈ hosts)
  then Ok (text_colour (host_tier t h) +:+ "X" +:+ RESET)
  else Ok "-".

Definition html_cell (t : tables) (h segment : string) : result string :=
  hosts ← getitem segment (segment_hosts t);
  if bool_decide (h ∈ hosts)
  then Ok ("<td style='background:" +:+ html_colour (host_tier t h)
           +:+ ";text-align:center;'>X</td>")
  else Ok "<td style='text-align:center;'>-</td>".

(** ** Areas of concern *)

Inductive concern_colour := yellow | red.

(** The lines the concern loop emits for one host, in order. *)
Definition host_concerns (t : tables) (h : string)
    : list (concern_colour * string) :=
  let reaching := segments_reaching t h in
  let has_pci := has_type t pci reaching in
  let has_non_pci := has_type t non_pci reaching in
  let multi := bool_decide (1 < length reaching) in
  let pci_and_nonpci := has_pci && has_non_pci in
  if multi || pci_and_nonpci then
    (if multi then
       [(yellow, "- Host " +:+ h +:+ " is reachable from multiple segments: "
                 +:+ Str.join ", " reaching)]
     else []) ++
    (if pci_and_nonpci then
       [(red, "[!] Host " +:+ h
              +:+ " is reachable from both PCI and non-PCI segments: "
              +:+ Str.join ", " reaching)]
     else [])
  else [].

Definition concern_ansi (c : concern_colour) : string :=
  match c with
  | yellow => YELLOW
  | red => RED
  end.

Definition names_or_none (segs : list string) : string :=
  match segs with
  | [] => "None"
  | _ => Str.join ", " segs
  end.

(** ** The script *)

(** [all_hosts.update(hosts)] over [segment_hosts.values()] *)
Definition host_union (t : tables) : gset string :=
  foldl (fun all_hosts hosts => all_hosts ∪ hosts) ∅ (segment_hosts t).*2.

Definition rule (host_col_width seg_col_width : nat) (t : tables) : string :=
  Str.repeat "-" (host_col_width + seg_col_width * length (segment_hosts t)).

Definition print_classification (t : tables) (host_col_width seg_col_width : nat)
    : script unit :=
  print (BOLD +:+ "Segment Classification:" +:+ RESET);;
  print (GREEN +:+ "PCI Segments:" +:+ RESET +:+ " "
         +:+ names_or_none (pci_segments t));;
  print (YELLOW +:+ "NON PCI Segments:" +:+ RESET +:+ " "
         +:+ names_or_none (non_pci_segments t));;
  print (rule host_col_width seg_col_width t).

Definition print_key (t : tables) (host_col_width seg_col_width : nat)
    : script unit :=
  print (BOLD +:+ "Key:" +:+ RESET);;
  print (GREEN +:+ "X" +:+ RESET +:+
    " = Host is reachable from this segment (at least one open port found)");;
  print (YELLOW +:+ "X" +:+ RESET +:+
    " = Host is reachable from multiple segments (potential segmentation issue)");;
  print (RED +:+ "X" +:+ RESET +:+
    " = Host is reachable from both PCI and non-PCI segments (critical concern)");;
  print (rule host_col_width seg_col_width t).

(** The inner loop of the text matrix: [row += pad_cell(cell, ...)]. *)
Definition text_row (t : tables) (host_col_width seg_col_width : nat)
    (h : string) : result string :=
  for_each
    (fun row segment =>
       cell ← text_cell t h segment;
       Ok (row +:+ pad_cell cell seg_col_width))
    (pad_cell h host_col_width +:+ " ")
    (ordered_segments t).

Definition print_matrix (t : tables) (all_hosts : list string)
    (host_col_width seg_col_width : nat) : script unit :=
  print (BOLD +:+ "Communication Matrix:" +:+ RESET +:+ " (see key above)"
         +:+ NL);;
  let header :=
    pad_cell "Host" host_col_width +:+ " " +:+
    Str.join " " ((fun seg => pad_cell seg seg_col_width)
                  <$> ordered_segments t) in
  print header;;
  print (Str.repeat "-" (String.length header));;
  for_ all_hosts (fun h =>
    row ← lift (text_row t host_col_width seg_col_width h);
    print row).

Definition areas_of_concern (t : tables) (all_hosts : list string)
    : list (concern_colour * string) :=
  all_hosts ≫= host_concerns t.

Definition print_concerns (t : tables) (all_hosts : list string) : script unit :=
  print (NL +:+ BOLD +:+ "Areas of Concern:" +:+ RESET);;
  for_ all_hosts (fun h =>
    for_ (host_concerns t h) (fun '(colour, msg) =>
      print (concern_ansi colour +:+ msg +:+ RESET)));;
  match areas_of_concern t all_hosts with
  | [] => print "No areas of concern detected based on current matrix."
  | _ => mret ()
  end.

Definition print_breakdown : script unit :=
  print (NL +:+ BOLD +:+ "Client Breakdown:" +:+ RESET);;
  print "This matrix shows which network segments can communicate with which hosts. Each 'X' means that the host was reachable from that segment during testing.";;
  print (YELLOW +:+ "Yellow X" +:+ RESET +:+ ": Indicates a host is reachable from more than one segment, which may suggest insufficient network segmentation.");;
  print (RED +:+ "Red X" +:+ RESET +:+ ": Indicates a host is reachable from both PCI and non-PCI segments, which is a critical concern for compliance and security.");;
  print "We recommend reviewing any yellow or red entries to ensure your segmentation controls meet your policy and compliance requirements.".

Definition html_header_cell (t : tables) (seg : string) : string :=
  if bool_decide (seg ∈ pci_segments t) then
    "<th style='background:#b3d1ff;color:#003366;'>" +:+ seg +:+ "</th>"
  else if bool_decide (seg ∈ non_pci_segments t) then
    "<th style='background:#fff2cc;color:#7f6000;'>" +:+ seg +:+ "</th>"
  else "<th>" +:+ seg +:+ "</th>".

Definition html_concern (c : concern_colour * string) : string :=
  match c with
  | (red, msg) =>
      "<div style='color:#b20000;font-weight:bold;'>" +:+ msg +:+ "</div>" +:+ NL
  | (yellow, msg) =>
      "<div style='color:#b59b00;'>" +:+ msg +:+ "</div>" +:+ NL
  end.

Definition write_html (t : tables) (all_hosts : list string) : script unit :=
  fopen;;
  fwrite ("<html><body>" +:+ NL);;
  fwrite ("<h2>Segment Classification</h2>" +:+ NL);;
  fwrite "<ul>";;
  fwrite ("<li><b style='color:green;'>PCI Segments:</b> "
          +:+ names_or_none (pci_segments t) +:+ "</li>");;
  fwrite ("<li><b style='color:orange;'>NON PCI Segments:</b> "
          +:+ names_or_none (non_pci_segments t) +:+ "</li>");;
  fwrite "</ul>";;
  fwrite ("<h2>Communication Matrix</h2>" +:+ NL);;
  fwrite ("<table border='1' cellpadding='5' style='border-collapse:collapse;'>"
          +:+ NL);;
  fwrite "<tr><th>Host</th>";;
  for_ (ordered_segments t) (fun seg => fwrite (html_header_cell t seg));;
  fwrite ("</tr>" +:+ NL);;
  for_ all_hosts (fun h =>
    fwrite ("<tr><td>" +:+ h +:+ "</td>");;
    for_ (ordered_segments t) (fun segment =>
      cell ← lift (html_cell t h segment);
      fwrite cell);;
    fwrite ("</tr>" +:+ NL));;
  fwrite ("</table>" +:+ NL);;
  fwrite "<p><b>Key:</b><br>";;
  fwrite "<span style='background:#ccffcc;'>Green</span>: Host is reachable from this segment only.<br>";;
  fwrite "<span style='background:#ffff99;'>Yellow</span>: Host is reachable from multiple segments.<br>";;
  fwrite "<span style='background:#ffcccc;'>Red</span>: Host is reachable from both PCI and non-PCI segments.<br>";;
  fwrite ("</p>" +:+ NL);;
  fwrite ("<h2>Areas of Concern</h2>" +:+ NL);;
  match areas_of_concern t all_hosts with
  | [] =>
      fwrite ("<div>No areas of concern detected based on current matrix.</div>"
              +:+ NL)
  | concerns => for_ concerns (fun c => fwrite (html_concern c))
  end;;
  fwrite ("</body></html>" +:+ NL).

Definition column_width (names : list string) : result nat :=
  longest ← py_max (String.length <$> names);
  Ok (Nat.max 15 (longest + 2)).

Section Script.

(** The order in which iterating a [set] yields its elements. *)
Variable set_iter : gset string -> list string.

(** [sorted(all_hosts)] *)
Definition all_hosts (t : tables) : list string :=
  merge_sort String.le (set_iter (host_union t)).

(** Everything after the load loop. *)
Definition report (t : tables) : script unit :=
  let all_hosts := all_hosts t in
  host_col_width ← lift (column_width all_hosts);
  seg_col_width ← lift (column_width (keys (segment_hosts t)));
  print_classification t host_col_width seg_col_width;;
  print_key t host_col_width seg_col_width;;
  print_matrix t all_hosts host_col_width seg_col_width;;
  print_concerns t all_hosts;;
  print_breakdown;;
  write_html t all_hosts;;
  print (NL +:+ CYAN +:+ "HTML report generated: segmentation_matrix.html"
         +:+ RESET).

Definition main (gnmap_files : list scan_file) : script unit :=
  t ← lift (load gnmap_files);
  report t.

(** A run starts with nothing printed and no report file written. *)
Definition run (gnmap_files : list scan_file) : result unit * channels :=
  main gnmap_files {| stdout := ""; html := None |}.

End Script.

(** ** Vocabulary of the specification *)

(** Segment [seg] reaches host [h]: [h in segment_hosts[seg]]. *)
Definition reaches (t : tables) (seg h : string) : Prop :=
  ∃ hosts, dict_get seg (segment_hosts t) = Some hosts ∧ h ∈ hosts.

Definition typed (t : tables) (seg : string) (typ : seg_type) : Prop :=
  dict_get seg (segment_types t) = Some typ.

(** Reachable from at least one [pci] and at least one [non_pci] segment. *)
Definition mixed_reach (t : tables) (h : string) : Prop :=
  (∃ seg, reaches t seg h ∧ typed t seg pci) ∧
  (∃ seg, reaches t seg h ∧ typed t seg non_pci).

(** Reachable from more than one segment. *)
Definition multi_reach (t : tables) (h : string) : Prop :=
  ∃ seg1 seg2, seg1 ≠ seg2 ∧ reaches t seg1 h ∧ reaches t seg2 h.

(** Position of a type in the column order: pci, then non_pci, then
    unknown. *)
Definition type_rank (typ : seg_type) : nat :=
  match typ with
  | pci => 0
  | non_pci => 1
  | unknown => 2
  end.

(** The derived name and type of a scan file. *)
Definition seg_name_of (f : scan_file) : string := (parse_segment (file_name f)).2.
Definition seg_type_of (f : scan_file) : seg_type := (parse_segment (file_name f)).1.

(** A line of a scan file is a reachable-host record for [ip]. *)
Definition host_record (line ip : string) : Prop :=
  Str.startswith line "Host:" = true ∧
  Str.split line !! 1%nat = Some ip ∧
  Str.contains "Ports:" line = true ∧
  Str.contains "open" line = true.

(** The text of an HTML cell: what stands between the first [>] and the
    next [<]. *)
Fixpoint after_gt (s : string) : string :=
  match s with
  | "" => ""
  | String c s' => if decide (c = ">"%char) then s' else after_gt s'
  end.

Fixpoint before_lt (s : string) : string :=
  match s with
  | "" => ""
  | String c s' => if decide (c = "<"%char) then "" else String c (before_lt s')
  end.

Definition td_text (cell : string) : string := before_lt (after_gt cell).

(** A run that has printed nothing and written no report. *)
Definition silent : channels := {| stdout := ""; html := None |}.

(** The script [m] returns normally from every state of the channels, and
    leaves an opened report opened. *)
Definition completes (m : script unit) : Prop :=
  ∀ w, ∃ w', m w = (Ok (), w') ∧ (is_Some (html w) → is_Some (html w')).

(** The script [m] returns normally and the report is opened when it has. *)
Definition opens (m : script unit) : Prop :=
  ∀ w, ∃ w', m w = (Ok (), w') ∧ is_Some (html w').

(** *** Sample inputs *)

Definition TAB : string := String "009"%char "".

Definition open_port_line (ip : string) : string :=
  "Host: " +:+ ip +:+ " ()" +:+ TAB +:+ "Ports: 80/open/tcp//http///" +:+ NL.

Definition pci_dmz : scan_file :=
  {| file_name := "PCI - DMZ.gnmap"; file_text := open_port_line "10.0.0.5" |}.

Definition non_pci_corp : scan_file :=
  {| file_name := "NON PCI - Corp.gnmap"; file_text := open_port_line "10.0.0.5" |}.

(** Two files whose names derive the same segment name [A]. *)
Definition pci_a : scan_file :=
  {| file_name := "PCI - A.gnmap"; file_text := open_port_line "10.0.0.1" |}.

Definition non_pci_a : scan_file :=
  {| file_name := "NON PCI - A.gnmap"; file_text := open_port_line "10.0.0.2" |}.

(** What loading the two files of the scenario gives, in either order. *)
Definition dmz_then_corp : tables :=
  {| segment_hosts := [("DMZ", {["10.0.0.5"]}); ("Corp", {["10.0.0.5"]})];
     segment_types := [("DMZ", pci); ("Corp", non_pci)] |}.

Definition corp_then_dmz : tables :=
  {| segment_hosts := [("Corp", {["10.0.0.5"]}); ("DMZ", {["10.0.0.5"]})];
     segment_types := [("Corp", non_pci); ("DMZ", pci)] |}.

(** A [Host:] record cut short after its first token. *)
Definition truncated : scan_file :=
  {| file_name := "Other.gnmap"; file_text := "Host:" +:+ NL |}.

(** *** Vocabulary of the further properties *)

(** The characters of a string. *)
Definition chars (s : string) : list ascii := String.list_ascii_of_string s.

(** What [pad_cell] calls [real_len]: the length without colour codes. *)
Definition visible_length (s : string) : nat := String.length (strip_ansi s).

(** A [Host:] line on which [parts[1]] is out of range. *)
Definition malformed (line : string) : Prop :=
  Str.startswith line "Host:" = true ∧ length (Str.split line) < 2.

(** A token of [str.split()]: not empty and free of whitespace. *)
Definition token (w : string) : Prop :=
  w ≠ "" ∧ Forall (λ c, Str.isspace c = false) (chars w).

(** Neither the first nor the last character is whitespace. *)
Definition trimmed (s : string) : Prop :=
  (∀ c, head (chars s) = Some c → Str.isspace c = false) ∧
  (∀ c, last (chars s) = Some c → Str.isspace c = false).

(** *** Vocabulary of the file-name rule *)

(** [b] is the pattern character [a] up to letter case: [a] itself or,
    when [a] is a small letter, its capital. *)
Definition same_letter (a b : ascii) : Prop :=
  b = a ∨
  ((97 ≤ N_of_ascii a)%N ∧ (N_of_ascii a ≤ 122)%N ∧
   N_of_ascii b = (N_of_ascii a - 32)%N).

Global Instance same_letter_dec a b : Decision (same_letter a b).
Proof. unfold same_letter. apply _. Defined.

(** [s] starts with the pattern [p], letter case aside. *)
Fixpoint ci_prefix (p s : string) : Prop :=
  match p, s with
  | "", _ => True
  | String a p', String b s' => same_letter a b ∧ ci_prefix p' s'
  | String _ _, "" => False
  end.

(** [rest] is what remains of [s] after its first [n] characters (nothing
    when [s] is shorter). *)
Definition remainder_after (n : nat) (s rest : string) : Prop :=
  (∃ pre, s = pre +:+ rest ∧ String.length pre = n) ∨
  (String.length s < n ∧ rest = "").

(** [name] is [s] without its leading and trailing whitespace. *)
Definition stripped_of (s name : string) : Prop :=
  ∃ l r, s = l +:+ name +:+ r ∧
    Forall (λ c, Str.isspace c = true) (chars l) ∧
    Forall (λ c, Str.isspace c = true) (chars r) ∧
    trimmed name.

(** An extension: a dot followed by characters that are neither a dot
    nor a path separator. *)
Definition extension (ext : string) : Prop :=
  ∃ e, ext = String "." e ∧ ("."%char ∉ chars e) ∧ ("/"%char ∉ chars e).

(** The last path component of [base] has a character that is not a dot:
    [base] has a character other than a dot and a separator with no
    separator after it. *)
Definition has_stem (base : string) : Prop :=
  ∃ u c v, base = u +:+ String c v ∧
    c ≠ "."%char ∧ c ≠ "/"%char ∧ ("/"%char ∉ chars v).

(** [base] is the path [p] with its extension [ext] taken off: [ext] is
    the extension that ends [p], provided a stem is left in front of it,
    and is empty when [p] ends in no such extension. *)
Definition splits_extension (p base ext : string) : Prop :=
  p = base +:+ ext ∧
  ((extension ext ∧ has_stem base) ∨
   (ext = "" ∧ ∀ b x, p = b +:+ x → extension x → ¬ has_stem b)).

(** *** Vocabulary of the rendered matrices *)

(** Concatenation of a list of strings. *)
Definition cat (l : list string) : string := foldr String.append "" l.

(** The script [m] returns normally, having printed [out] and left the
    report as it was. *)
Definition prints (m : script unit) (out : string) : Prop :=
  ∀ w, m w = (Ok (), {| stdout := stdout w +:+ out; html := html w |}).

(** The script [m] returns normally, having appended [doc] to the opened
    report and printed nothing. *)
Definition appends (m : script unit) (doc : string) : Prop :=
  ∀ w, m w = (Ok (), {| stdout := stdout w;
                        html := (λ old, old +:+ doc) <$> html w |}).

(** The script [m] returns normally, having printed nothing and left
    [doc] as the contents of the report. *)
Definition writes (m : script unit) (doc : string) : Prop :=
  ∀ w, m w = (Ok (), {| stdout := stdout w; html := Some doc |}).

(** The rows of the text matrix for the cells [cells h] of each host:
    the padded host, a space, the padded cells, a line end. *)
Definition text_matrix_rows (host_col_width seg_col_width : nat)
    (hosts : list string) (cells : string → list string) : string :=
  cat ((λ h, pad_cell h host_col_width +:+ " "
             +:+ cat ((λ c, pad_cell c seg_col_width) <$> cells h) +:+ NL)
       <$> hosts).

(** The rows of the HTML table for the cells [cells h] of each host. *)
Definition html_matrix_rows (hosts : list string)
    (cells : string → list string) : string :=
  cat ((λ h, "<tr><td>" +:+ h +:+ "</td>" +:+ cat (cells h) +:+ "</tr>" +:+ NL)
       <$> hosts).

(** The cell each renderer shows for a host and a column whose lookup
    succeeds. *)
Definition text_mark (t : tables) (h seg : string) : string :=
  if host_in t h seg then text_colour (host_tier t h) +:+ "X" +:+ RESET else "-".

Definition html_mark (t : tables) (h seg : string) : string :=
  if host_in t h seg
  then "<td style='background:" +:+ html_colour (host_tier t h)
       +:+ ";text-align:center;'>X</td>"
  else "<td style='text-align:center;'>-</td>".

(** The cells [text] and [html] of one host, column by column: each is
    the cell its renderer computes for that column, the visible mark of
    the text cell is the text of the HTML cell, and that mark is [X] when
    the segment reaches the host and [-] when it does not. *)
Definition same_marks (t : tables) (h : string) (text html : list string)
    : Prop :=
  length text = length (ordered_segments t) ∧
  length html = length (ordered_segments t) ∧
  ∀ i segment, ordered_segments t !! i = Some segment →
    ∃ c1 c2, text !! i = Some c1 ∧ html !! i = Some c2 ∧
      text_cell t h segment = Ok c1 ∧ html_cell t h segment = Ok c2 ∧
      strip_ansi c1 = td_text c2 ∧
      (reaches t segment h → strip_ansi c1 = "X") ∧
      (¬ reaches t segment h → strip_ansi c1 = "-").

(** * Properties *)

(** ** Strings *)

Lemma prefix_lower_ci p s :
  Str.lower p = p → String.prefix p (Str.lower s) = Str.starts_ci p s.
Proof.
  revert s. induction p as [|a p IH]; intros [|b s] Hp; simpl in *; try done.
  injection Hp as Ha Hp. rewrite Ha.
  destruct (ascii_dec a (Str.lower_char b)) as [->|Hne].
  - rewrite bool_decide_eq_true_2 by done. simpl. by apply IH.
  - rewrite bool_decide_eq_false_2 by done. done.
Qed.

Lemma slice_to_from n s : Str.slice_to n s +:+ Str.slice_from n s = s.
Proof.
  revert s. induction n as [|n IH]; intros [|c s]; simpl; try done.
  by rewrite <- (IH s) at 3.
Qed.

Example splitext_plain : splitext "PCI - DMZ.gnmap" = ("PCI - DMZ", ".gnmap").
Proof. reflexivity. Qed.
Example splitext_last_dot : splitext "a.b.gnmap" = ("a.b", ".gnmap").
Proof. reflexivity. Qed.
Example splitext_leading_dot : splitext ".gnmap" = (".gnmap", "").
Proof. reflexivity. Qed.
Example splitext_directory_dot : splitext "a.b/c" = ("a.b/c", "").
Proof. reflexivity. Qed.
Example lines_keep_terminator :
  Str.lines (Str.universal_newlines
               ("a" +:+ String "013"%char NL +:+ "b" +:+ String "013"%char "c"))
    = ["a" +:+ NL; "b" +:+ NL; "c"].
Proof. reflexivity. Qed.
Example strip_both_ends : Str.strip "  DMZ 1 " = "DMZ 1".
Proof. reflexivity. Qed.
Example parse_segment_dmz : parse_segment "PCI - DMZ.gnmap" = (pci, "DMZ").
Proof. reflexivity. Qed.
Example parse_segment_corp :
  parse_segment "NON PCI - Corp.gnmap" = (non_pci, "Corp").
Proof. reflexivity. Qed.
Example parse_segment_other : parse_segment "Other.gnmap" = (unknown, "Other").
Proof. reflexivity. Qed.
Example parse_segment_tight : parse_segment "pci -DMZ.gnmap" = (pci, "MZ").
Proof. reflexivity. Qed.
Example parse_segment_hidden : parse_segment "..gnmap" = (unknown, "..gnmap").
Proof. reflexivity. Qed.
Example split_host_line :
  Str.split (open_port_line "10.0.0.5")
    = ["Host:"; "10.0.0.5"; "()"; "Ports:"; "80/open/tcp//http///"].
Proof. reflexivity. Qed.
Example split_bare_host : Str.split ("Host:" +:+ NL) = ["Host:"].
Proof. reflexivity. Qed.
Example strip_ansi_cell : strip_ansi (RED +:+ "X" +:+ RESET) = "X".
Proof. reflexivity. Qed.
Example strip_ansi_unfinished :
  strip_ansi (String ESC (String ESC "[1;2mab" +:+ String ESC "[1x"))
    = String ESC ("ab" +:+ String ESC "[1x").
Proof. reflexivity. Qed.
Example pad_cell_coloured :
  pad_cell (RED +:+ "X" +:+ RESET) 4 = RED +:+ "X" +:+ RESET +:+ "   ".
Proof. reflexivity. Qed.


(** ** Loops and dictionaries *)

Lemma for_each_app {A S : Type} (body : S → A → result S) s l1 l2 :
  for_each body s (l1 ++ l2) = s' ← for_each body s l1; for_each body s' l2.
Proof.
  revert s. induction l1 as [|x l1 IH]; intros s; simpl; [done|].
  destruct (body s x) as [s1|e]; simpl; [apply IH | done].
Qed.

Lemma for_each_invariant {A S : Type} (P : S → Prop)
    (body : S → A → result S) l s s' :
  (∀ s x s', P s → x ∈ l → body s x = Ok s' → P s') →
  P s → for_each body s l = Ok s' → P s'.
Proof.
  revert s. induction l as [|x l IH]; intros s Hbody Hs; simpl.
  - by intros [= <-].
  - destruct (body s x) as [s1|e] eqn:Hx; simpl; [|done].
    apply IH.
    + intros ? y ? ? Hy. apply Hbody; [done|]. by right.
    + eapply Hbody; [done| |done]. by left.
Qed.

Section dict.
Context {V : Type}.
Implicit Types (d : dict V) (k : string) (v : V).

Lemma dict_get_set k k' v d :
  dict_get k' (dict_set k v d) =
    if decide (k = k') then Some v else dict_get k' d.
Proof.
  induction d as [|[k0 v0] d IH]; simpl.
  - repeat case_decide; congruence.
  - destruct (decide (k0 = k)) as [->|Hk0]; simpl.
    + repeat case_decide; congruence.
    + rewrite IH. repeat case_decide; congruence.
Qed.

Lemma dict_get_None k d : dict_get k d = None ↔ k ∉ keys d.
Proof.
  unfold keys. induction d as [|[k0 v0] d IH]; simpl.
  - split; [intros _; apply not_elem_of_nil | done].
  - rewrite not_elem_of_cons. destruct (decide (k0 = k)) as [->|Hne].
    + split; [done | by intros [? _]].
    + rewrite IH. split; [by intros; split | by intros [_ ?]].
Qed.

Lemma dict_get_elem_of k v d : dict_get k d = Some v → (k, v) ∈ d.
Proof.
  induction d as [|[k0 v0] d IH]; simpl; [done|].
  destruct (decide (k0 = k)) as [->|Hne].
  - intros [= ->]. by left.
  - intros. right. by apply IH.
Qed.

Lemma elem_of_dict_get k v d :
  NoDup (keys d) → (k, v) ∈ d → dict_get k d = Some v.
Proof.
  unfold keys. induction d as [|[k0 v0] d IH]; simpl.
  - by intros _ ?%elem_of_nil.
  - intros [Hk0 Hd]%NoDup_cons Hin.
    destruct (decide (k0 = k)) as [->|Hne].
    + apply elem_of_cons in Hin as [[= ->]|Hin]; [done|].
      destruct Hk0. apply list_elem_of_fmap. by exists (k, v).
    + apply elem_of_cons in Hin as [[= -> ->]|Hin]; [done|]. by apply IH.
Qed.

Lemma keys_dict_set k v d :
  keys (dict_set k v d) = if decide (k ∈ keys d) then keys d else keys d ++ [k].
Proof.
  unfold keys. induction d as [|[k0 v0] d IH].
  - destruct (decide _) as [Hin|_]; [by apply elem_of_nil in Hin | done].
  - cbn [dict_set]. destruct (decide (k0 = k)) as [->|Hk0].
    + rewrite decide_True; [done | by left].
    + rewrite !fmap_cons, IH. cbn [fst].
      destruct (decide (k ∈ d.*1)) as [Hin|Hin].
      * rewrite decide_True; [done | by right].
      * rewrite decide_False; [done|].
        rewrite not_elem_of_cons. naive_solver.
Qed.

Lemma NoDup_keys_dict_set k v d : NoDup (keys d) → NoDup (keys (dict_set k v d)).
Proof.
  intros Hd. rewrite keys_dict_set. case_decide; [done|].
  apply NoDup_app. split_and!; [done | | apply NoDup_singleton].
  intros x Hx ->%list_elem_of_singleton. done.
Qed.
End dict.

(** ** What the load loop establishes *)

(** The two dictionaries have the same keys in the same order, without
    repetition. *)
Definition loaded (t : tables) : Prop :=
  NoDup (keys (segment_hosts t)) ∧
  keys (segment_hosts t) = keys (segment_types t).

Lemma load_file_inv t f t' :
  load_file t f = Ok t' →
  ∃ hosts, scan_hosts f = Ok hosts ∧
    segment_hosts t' = dict_set (seg_name_of f) hosts (segment_hosts t) ∧
    segment_types t' = dict_set (seg_name_of f) (seg_type_of f) (segment_types t).
Proof.
  unfold load_file, seg_name_of, seg_type_of.
  destruct (parse_segment (file_name f)) as [typ name]; simpl.
  destruct (scan_hosts f) as [hosts|e]; simpl; [|done].
  intros [= <-]. by exists hosts.
Qed.

Lemma load_file_loaded t f t' : loaded t → load_file t f = Ok t' → loaded t'.
Proof.
  intros [Hnd Hkeys] (hosts & _ & Hh & Ht)%load_file_inv.
  unfold loaded. rewrite Hh, Ht, !keys_dict_set, <- Hkeys. split.
  - rewrite <- (keys_dict_set _ hosts). by apply NoDup_keys_dict_set.
  - done.
Qed.

Lemma load_loaded files t : load files = Ok t → loaded t.
Proof.
  apply (for_each_invariant loaded).
  - intros ? ? ? ? _. by apply load_file_loaded.
  - split; [apply NoDup_nil_2 | done].
Qed.

(** ** Parsing the lines of a scan file *)

Lemma scan_line_Ok hosts line hosts' :
  scan_line hosts line = Ok hosts' →
  ∀ ip, ip ∈ hosts' ↔ ip ∈ hosts ∨ host_record line ip.
Proof.
  unfold scan_line, host_record.
  destruct (Str.startswith line "Host:") eqn:Hhost.
  2: { intros [= <-] ip. split; [by left | by intros [?|[? _]]]. }
  destruct (Str.split line !! 1%nat) as [ip0|] eqn:Hip; [|done].
  destruct (Str.contains "Ports:" line) eqn:Hports;
    destruct (Str.contains "open" line) eqn:Hopen; simpl; intros [= <-] ip.
  - rewrite elem_of_union, elem_of_singleton. split.
    + intros [? | ->]; [by left | by right].
    + intros [?|(_ & [= ->] & _)]; [by left | by right].
  - split; [by left | by intros [?|(_ & _ & _ & ?)]].
  - split; [by left | by intros [?|(_ & _ & ? & _)]].
  - split; [by left | by intros [?|(_ & _ & ? & _)]].
Qed.

Lemma scan_line_Raise hosts line e :
  scan_line hosts line = Raise e ↔
  e = IndexError ∧ Str.startswith line "Host:" = true ∧
  length (Str.split line) < 2.
Proof.
  unfold scan_line.
  destruct (Str.startswith line "Host:"); [|split; [done | by intros (_ & ? & _)]].
  destruct (Str.split line !! 1%nat) as [ip0|] eqn:Hip.
  - apply lookup_lt_Some in Hip.
    destruct (_ && _); (split; [done | intros (_ & _ & ?); lia]).
  - apply lookup_ge_None in Hip.
    split; [intros [= <-]; split_and!; [done..|lia] | by intros [-> _]].
Qed.

Lemma scan_lines_spec lines acc :
  (∀ line, line ∈ lines → Str.startswith line "Host:" = true →
           is_Some (Str.split line !! 1%nat)) →
  ∃ hosts, for_each scan_line acc lines = Ok hosts ∧
    ∀ ip, ip ∈ hosts ↔ ip ∈ acc ∨ ∃ line, line ∈ lines ∧ host_record line ip.
Proof.
  revert acc. induction lines as [|line lines IH]; intros acc Hwf; simpl.
  - exists acc. split; [done|]. intros ip. split; [by left|].
    intros [?|(? & []%elem_of_nil & _)]; done.
  - destruct (scan_line acc line) as [acc'|e] eqn:Hline; simpl.
    + destruct (IH acc') as (hosts & -> & Hhosts).
      { intros ? ?. apply Hwf. by right. }
      exists hosts. split; [done|]. intros ip.
      rewrite Hhosts, (scan_line_Ok _ _ _ Hline). split.
      * intros [[?|?]|(l & ? & ?)]; [by left | right..].
        -- exists line. split; [by left | done].
        -- exists l. split; [by right | done].
      * intros [?|(l & [->|?]%elem_of_cons & ?)]; [by left; left | by left; right |].
        right. by exists l.
    + apply scan_line_Raise in Hline as (_ & Hhost & Hlen).
      destruct (Hwf line) as [ip Hip]; [by left | done |].
      apply lookup_lt_Some in Hip. lia.
Qed.

(** C6: a line is a host record exactly when it starts with [Host:]; its
    address is the second whitespace-separated token; the address enters
    the segment's set exactly when the line also contains [Ports:] and
    [open].  Provided every [Host:] line has a second token, the scan of a
    file returns the set of the addresses of such lines, so a [Host:] line
    without [open] contributes nothing. *)
Theorem scan_hosts_spec (f : scan_file) :
  (∀ line, line ∈ file_lines f → Str.startswith line "Host:" = true →
           is_Some (Str.split line !! 1%nat)) →
  ∃ hosts, scan_hosts f = Ok hosts ∧
    ∀ ip, ip ∈ hosts ↔ ∃ line, line ∈ file_lines f ∧ host_record line ip.
Proof.
  intros Hwf. destruct (scan_lines_spec _ ∅ Hwf) as (hosts & Hscan & Hhosts).
  exists hosts. split; [done|]. intros ip. rewrite Hhosts.
  split; [intros [[]%not_elem_of_empty|?]; done | by right].
Qed.

Lemma scan_hosts_spec_witness :
  ∃ hosts, scan_hosts pci_dmz = Ok hosts ∧
    ∀ ip, ip ∈ hosts ↔ ∃ line, line ∈ file_lines pci_dmz ∧ host_record line ip.
Proof.
  apply (scan_hosts_spec pci_dmz).
  intros line Hline Hhost.
  change (file_lines pci_dmz) with [open_port_line "10.0.0.5"] in Hline.
  apply list_elem_of_singleton in Hline as ->.
  exists "10.0.0.5". reflexivity.
Defined.

(** A [Host:] line that reports no open port leaves the set as it was. *)
Example host_without_open_port :
  scan_hosts {| file_name := "PCI - DMZ.gnmap";
                file_text := "Host: 10.0.0.5 ()" +:+ TAB
                             +:+ "Ports: 80/closed/tcp//http///" +:+ NL |}
    = Ok ∅.
Proof. vm_compute. reflexivity. Qed.

Lemma scan_lines_malformed lines acc line :
  line ∈ lines → Str.startswith line "Host:" = true →
  length (Str.split line) < 2 →
  for_each scan_line acc lines = Raise IndexError.
Proof.
  intros Hin Hhost Hlen. revert acc.
  induction lines as [|x lines IH]; intros acc; [by apply elem_of_nil in Hin|].
  simpl. destruct (scan_line acc x) as [acc'|e] eqn:Hx; simpl.
  - apply elem_of_cons in Hin as [->|Hin]; [|by apply IH].
    assert (scan_line acc x = Raise IndexError) as Hr
      by (by apply scan_line_Raise).
    congruence.
  - by apply scan_line_Raise in Hx as [-> _].
Qed.

Lemma load_file_Raise t f e :
  load_file t f = Raise e → scan_hosts f = Raise e.
Proof.
  unfold load_file. destruct (parse_segment (file_name f)) as [typ name].
  destruct (scan_hosts f); simpl; [done | by intros [= <-]].
Qed.

Lemma load_file_scan_Raise t f e :
  scan_hosts f = Raise e → load_file t f = Raise e.
Proof.
  unfold load_file. destruct (parse_segment (file_name f)) as [typ name].
  by intros ->.
Qed.

Lemma scan_hosts_Raise f e : scan_hosts f = Raise e → e = IndexError.
Proof.
  unfold scan_hosts. generalize (∅ : gset string).
  induction (file_lines f) as [|x lines IH]; intros acc; simpl; [done|].
  destruct (scan_line acc x) as [acc'|e'] eqn:Hx; simpl; [apply IH|].
  apply scan_line_Raise in Hx as [-> _]. by intros [= <-].
Qed.

Lemma load_malformed files t f :
  f ∈ files → scan_hosts f = Raise IndexError →
  for_each load_file t files = Raise IndexError.
Proof.
  intros Hin Hf. revert t.
  induction files as [|g files IH]; intros t; [by apply elem_of_nil in Hin|].
  simpl. destruct (load_file t g) as [t'|e] eqn:Hg; simpl.
  - apply elem_of_cons in Hin as [->|Hin]; [|by apply IH].
    apply (load_file_scan_Raise t) in Hf. congruence.
  - by apply load_file_Raise, scan_hosts_Raise in Hg as ->.
Qed.

(** C9: a file with a line that starts with [Host:] and has fewer than two
    whitespace-separated tokens aborts the run with the uncaught
    [IndexError] of [parts[1]], before anything is printed or written. *)
Theorem malformed_host_line_aborts (set_iter : gset string → list string)
    (gnmap_files : list scan_file) (f : scan_file) (line : string) :
  f ∈ gnmap_files → line ∈ file_lines f →
  Str.startswith line "Host:" = true → length (Str.split line) < 2 →
  run set_iter gnmap_files = (Raise IndexError, silent).
Proof.
  intros Hf Hline Hhost Hlen. unfold run, main, load.
  rewrite (load_malformed _ _ f Hf); [done|].
  by apply (scan_lines_malformed _ _ line).
Qed.

Lemma malformed_host_line_aborts_witness :
  run elements [pci_dmz; truncated] = (Raise IndexError, silent).
Proof.
  apply (malformed_host_line_aborts elements [pci_dmz; truncated] truncated
           (String.app "Host:" NL)).
  - vm_compute. right. left.
  - vm_compute. left.
  - reflexivity.
  - vm_compute. lia.
Defined.

(** ** Files that derive the same segment name *)

Lemma load_file_other t f t' name :
  load_file t f = Ok t' → seg_name_of f ≠ name →
  dict_get name (segment_hosts t') = dict_get name (segment_hosts t) ∧
  dict_get name (segment_types t') = dict_get name (segment_types t).
Proof.
  intros (hosts & _ & -> & ->)%load_file_inv Hne.
  by rewrite !dict_get_set, !decide_False.
Qed.

Lemma load_file_same t f t' :
  load_file t f = Ok t' →
  ∃ hosts, scan_hosts f = Ok hosts ∧
    dict_get (seg_name_of f) (segment_hosts t') = Some hosts ∧
    dict_get (seg_name_of f) (segment_types t') = Some (seg_type_of f).
Proof.
  intros (hosts & Hscan & -> & ->)%load_file_inv. exists hosts.
  by rewrite !dict_get_set, !decide_True.
Qed.

(** C2, as the code has it: when two files derive the same segment name,
    the entry under that name holds, in the type map and in the host-set
    map alike, what the last such file gave; the earlier file's host set
    is replaced. *)
Theorem later_file_overwrites_both (pre mid post : list scan_file)
    (f1 f2 : scan_file) (t : tables) :
  seg_name_of f1 = seg_name_of f2 →
  (∀ g, g ∈ post → seg_name_of g ≠ seg_name_of f2) →
  load (pre ++ f1 :: mid ++ f2 :: post) = Ok t →
  ∃ hosts2, scan_hosts f2 = Ok hosts2 ∧
    dict_get (seg_name_of f1) (segment_hosts t) = Some hosts2 ∧
    dict_get (seg_name_of f1) (segment_types t) = Some (seg_type_of f2).
Proof.
  intros -> Hpost. unfold load.
  replace (pre ++ f1 :: mid ++ f2 :: post)
    with ((pre ++ f1 :: mid) ++ f2 :: post) by by rewrite <- app_assoc.
  rewrite for_each_app.
  destruct (for_each load_file no_tables (pre ++ f1 :: mid)) as [t1|e]; [|done].
  simpl. destruct (load_file t1 f2) as [t2|e] eqn:Hf2; [|done]. simpl.
  apply load_file_same in Hf2 as (hosts2 & Hscan & Hh & Hty).
  intros Ht. exists hosts2. split; [done|]. revert Ht.
  apply (for_each_invariant
    (λ t, dict_get (seg_name_of f2) (segment_hosts t) = Some hosts2 ∧
          dict_get (seg_name_of f2) (segment_types t) = Some (seg_type_of f2)));
    [|done].
  intros s g s' [Hs1 Hs2] Hg Hload.
  destruct (load_file_other _ _ _ (seg_name_of f2) Hload) as [-> ->];
    [by apply Hpost | done].
Qed.

Lemma later_file_overwrites_both_witness :
  ∃ hosts2, scan_hosts non_pci_a = Ok hosts2 ∧
    dict_get (seg_name_of pci_a)
      (segment_hosts {| segment_hosts := [("A", {["10.0.0.2"]})];
                        segment_types := [("A", non_pci)] |}) = Some hosts2 ∧
    dict_get (seg_name_of pci_a)
      (segment_types {| segment_hosts := [("A", {["10.0.0.2"]})];
                        segment_types := [("A", non_pci)] |})
      = Some (seg_type_of non_pci_a).
Proof.
  apply (later_file_overwrites_both [] [] [] pci_a non_pci_a).
  - reflexivity.
  - intros g Hg. by apply elem_of_nil in Hg.
  - vm_compute. reflexivity.
Defined.

(** C2, as the spec words it, fails: it is not so that the earlier file's
    host set stays in the per-segment host-set map when a later file
    derives the same segment name.  For [PCI - A.gnmap] (host 10.0.0.1)
    followed by [NON PCI - A.gnmap] (host 10.0.0.2) no entry holds the
    first file's hosts. *)
Lemma earlier_host_set_kept_counterexample :
  ¬ (∀ (f1 f2 : scan_file) (t : tables) (hosts1 : gset string),
       seg_name_of f1 = seg_name_of f2 →
       scan_hosts f1 = Ok hosts1 →
       load [f1; f2] = Ok t →
       ∃ seg, dict_get seg (segment_hosts t) = Some hosts1).
Proof.
  intros Hclaim.
  destruct (Hclaim pci_a non_pci_a
              {| segment_hosts := [("A", {["10.0.0.2"]})];
                 segment_types := [("A", non_pci)] |}
              {["10.0.0.1"]}) as [seg Hseg].
  - reflexivity.
  - vm_compute. reflexivity.
  - vm_compute. reflexivity.
  - cbn [dict_get segment_hosts] in Hseg.
    destruct (decide ("A" = seg)); [|done].
    apply (inj Some) in Hseg.
    assert ("10.0.0.1" ∈ ({["10.0.0.2"]} : gset string)) as Hin
      by (rewrite Hseg; by apply elem_of_singleton).
    by apply elem_of_singleton in Hin.
Qed.

(** ** Order of the columns *)

Lemma elem_of_typed_filter (P : seg_type → Prop) `{∀ typ, Decision (P typ)}
    (t : tables) (seg : string) :
  NoDup (keys (segment_types t)) →
  seg ∈ (filter (λ kv, P kv.2) (segment_types t)).*1 ↔
  ∃ typ, typed t seg typ ∧ P typ.
Proof.
  intros Hnd. rewrite list_elem_of_fmap. split.
  - intros ([k typ] & -> & [HP Hin]%list_elem_of_filter).
    exists typ. split; [by apply elem_of_dict_get | done].
  - intros (typ & Hty%dict_get_elem_of & HP). exists (seg, typ).
    split; [done|]. by apply list_elem_of_filter.
Qed.

Lemma elem_of_pci_segments t seg :
  NoDup (keys (segment_types t)) → seg ∈ pci_segments t ↔ typed t seg pci.
Proof.
  intros Hnd. unfold pci_segments.
  etrans; [exact (elem_of_typed_filter (λ typ, typ = pci) t seg Hnd)|].
  split; [by intros (? & ? & ->) | by exists pci].
Qed.

Lemma elem_of_non_pci_segments t seg :
  NoDup (keys (segment_types t)) →
  seg ∈ non_pci_segments t ↔ typed t seg non_pci.
Proof.
  intros Hnd. unfold non_pci_segments.
  etrans; [exact (elem_of_typed_filter (λ typ, typ = non_pci) t seg Hnd)|].
  split; [by intros (? & ? & ->) | by exists non_pci].
Qed.

Lemma elem_of_unknown_segments t seg :
  NoDup (keys (segment_types t)) →
  seg ∈ unknown_segments t ↔ typed t seg unknown.
Proof.
  intros Hnd. unfold unknown_segments.
  etrans; [exact (elem_of_typed_filter (λ typ, typ ∉ [pci; non_pci]) t seg Hnd)|].
  split.
  - intros ([] & ? & Hnot); [destruct Hnot; repeat constructor..|done].
  - exists unknown. split; [done|].
    intros [?|[?|[]%elem_of_nil]%elem_of_cons]%elem_of_cons; done.
Qed.

Lemma lookup_three_parts {A : Type} (l1 l2 l3 : list A) i j x y :
  i < j → (l1 ++ l2 ++ l3) !! i = Some x → (l1 ++ l2 ++ l3) !! j = Some y →
  x ∈ l1 ∨ (x ∈ l2 ∧ (y ∈ l2 ∨ y ∈ l3)) ∨ (x ∈ l3 ∧ y ∈ l3).
Proof.
  intros Hij.
  rewrite !lookup_app_Some, !list_elem_of_lookup.
  intros [?|[? [?|[? ?]]]] [?|[? [?|[? ?]]]]; eauto 8;
    match goal with H : _ !! _ = Some _ |- _ => apply lookup_lt_Some in H; lia end.
Qed.

(** C8: in the column order, shared by the text and the HTML matrix, no
    segment comes before a segment of an earlier type: every pci segment
    precedes every non_pci segment, which precedes every unknown one. *)
Theorem columns_ordered_by_type (gnmap_files : list scan_file) (t : tables)
    (i j : nat) (seg1 seg2 : string) :
  load gnmap_files = Ok t → i < j →
  ordered_segments t !! i = Some seg1 →
  ordered_segments t !! j = Some seg2 →
  ∃ typ1 typ2, typed t seg1 typ1 ∧ typed t seg2 typ2 ∧
    type_rank typ1 ≤ type_rank typ2.
Proof.
  intros [Hnd Hkeys]%load_loaded Hij Hi Hj. rewrite Hkeys in Hnd.
  pose proof (lookup_three_parts _ _ _ _ _ _ _ Hij Hi Hj) as Hparts.
  rewrite !elem_of_pci_segments, !elem_of_non_pci_segments,
    !elem_of_unknown_segments in Hparts by done.
  assert (∃ typ2, typed t seg2 typ2) as [typ2 Hty2].
  { apply list_elem_of_lookup_2 in Hj. revert Hj.
    unfold ordered_segments. rewrite !elem_of_app, elem_of_pci_segments,
      elem_of_non_pci_segments, elem_of_unknown_segments by done.
    intros [?|[?|?]]; eauto. }
  destruct Hparts as [H1|[[H1 [H2|H2]]|[H1 H2]]].
  - exists pci, typ2. split_and!; [done..|simpl; lia].
  - exists non_pci, non_pci. split_and!; [done..|simpl; lia].
  - exists non_pci, unknown. split_and!; [done..|simpl; lia].
  - exists unknown, unknown. split_and!; [done..|simpl; lia].
Qed.

Lemma columns_ordered_by_type_witness :
  ∃ typ1 typ2,
    typed corp_then_dmz "DMZ" typ1 ∧
    typed corp_then_dmz "Corp" typ2 ∧
    type_rank typ1 ≤ type_rank typ2.
Proof.
  apply (columns_ordered_by_type [non_pci_corp; pci_dmz] _ 0 1).
  - vm_compute. reflexivity.
  - lia.
  - reflexivity.
  - reflexivity.
Defined.

(** ** Tier of a host *)

Lemma host_in_reaches t seg h : host_in t h seg = true ↔ reaches t seg h.
Proof.
  unfold host_in, reaches.
  destruct (dict_get seg (segment_hosts t)) as [hosts|].
  - rewrite bool_decide_eq_true. split; [by exists hosts|].
    by intros (? & [= <-] & ?).
  - split; [done | by intros (? & ? & _)].
Qed.

Lemma elem_of_segments_reaching t seg h :
  seg ∈ segments_reaching t h ↔ reaches t seg h.
Proof.
  unfold segments_reaching.
  rewrite list_elem_of_filter, Is_true_true, host_in_reaches.
  split; [by intros [? _] | intros Hreach; split; [done|]].
  destruct Hreach as (hosts & Hget & _).
  destruct (decide (seg ∈ keys (segment_hosts t))) as [|Hnot]; [done|].
  apply dict_get_None in Hnot. congruence.
Qed.

Lemma NoDup_segments_reaching t h :
  NoDup (keys (segment_hosts t)) → NoDup (segments_reaching t h).
Proof. intros Hnd. by apply NoDup_filter. Qed.

Lemma has_type_true t typ segs :
  has_type t typ segs = true ↔ ∃ seg, seg ∈ segs ∧ typed t seg typ.
Proof.
  unfold has_type, typed. rewrite existsb_exists. split.
  - intros (seg & Hin%list_elem_of_In & Hty%bool_decide_eq_true). eauto.
  - intros (seg & Hin%list_elem_of_In & Hty). exists seg.
    split; [done | by apply bool_decide_eq_true].
Qed.

Lemma two_distinct_members {A : Type} (l : list A) :
  NoDup l → 1 < length l ↔ ∃ x y, x ≠ y ∧ x ∈ l ∧ y ∈ l.
Proof.
  intros Hnd. split.
  - destruct l as [|x [|y l]]; simpl; [lia..|]. intros _.
    exists x, y. split_and!; [|by left | by right; left].
    apply NoDup_cons in Hnd as [Hx _]. intros ->. apply Hx. by left.
  - intros (x & y & Hne & Hx & Hy).
    destruct l as [|z [|z' l]]; simpl; [by apply elem_of_nil in Hx | | lia].
    apply list_elem_of_singleton in Hx, Hy. congruence.
Qed.

Lemma mixed_reach_has_type t h :
  mixed_reach t h ↔
  has_type t pci (segments_reaching t h) &&
  has_type t non_pci (segments_reaching t h) = true.
Proof.
  unfold mixed_reach.
  rewrite andb_true_iff, !has_type_true.
  by setoid_rewrite (elem_of_segments_reaching t _ h).
Qed.

Lemma multi_reach_length t h :
  NoDup (keys (segment_hosts t)) →
  multi_reach t h ↔ 1 < length (segments_reaching t h).
Proof.
  intros Hnd. unfold multi_reach.
  rewrite (two_distinct_members _ (NoDup_segments_reaching t h Hnd)).
  by setoid_rewrite (elem_of_segments_reaching t _ h).
Qed.

(** C1: for a host of the aggregated union the tier is critical when the
    segments reaching it include a pci and a non_pci one, however many
    reach it; otherwise elevated when more than one segment reaches it;
    otherwise normal. *)
Theorem tier_rule (gnmap_files : list scan_file) (t : tables) (h : string) :
  load gnmap_files = Ok t → h ∈ host_union t →
  (mixed_reach t h → host_tier t h = critical) ∧
  (¬ mixed_reach t h → multi_reach t h → host_tier t h = elevated) ∧
  (¬ mixed_reach t h → ¬ multi_reach t h → host_tier t h = normal).
Proof.
  intros [Hnd _]%load_loaded _.
  rewrite (mixed_reach_has_type t h), (multi_reach_length t h Hnd).
  unfold host_tier.
  destruct (has_type t pci _ && has_type t non_pci _).
  - split_and!; [done | by intros [] | by intros []].
  - split_and!; [done | |]; intros _ Hlen.
    + by rewrite bool_decide_eq_true_2.
    + by rewrite bool_decide_eq_false_2.
Qed.

Lemma tier_rule_witness :
  host_tier corp_then_dmz "10.0.0.5" = critical.
Proof.
  refine (proj1 (tier_rule [non_pci_corp; pci_dmz] _ "10.0.0.5" _ _) _).
  - vm_compute. reflexivity.
  - vm_compute. reflexivity.
  - split; [exists "DMZ" | exists "Corp"]; (split; [|reflexivity]);
      exists {["10.0.0.5"]}; (split; [reflexivity | by apply elem_of_singleton]).
Defined.

(** ** The two matrices *)

Lemma strip_ansi_text_cell r : strip_ansi (text_colour r +:+ "X" +:+ RESET) = "X".
Proof. by destruct r. Qed.

Lemma td_text_html_cell r :
  td_text ("<td style='background:" +:+ html_colour r
           +:+ ";text-align:center;'>X</td>") = "X".
Proof. by destruct r. Qed.

Lemma ordered_segments_keys t seg :
  loaded t → seg ∈ ordered_segments t → seg ∈ keys (segment_hosts t).
Proof.
  intros [Hnd Hkeys]. rewrite Hkeys in *.
  unfold ordered_segments.
  rewrite !elem_of_app, elem_of_pci_segments, elem_of_non_pci_segments,
    elem_of_unknown_segments by done.
  unfold typed. intros Hty.
  destruct (dict_get seg (segment_types t)) as [typ|] eqn:Hget;
    [|by destruct Hty as [?|[?|?]]].
  destruct (decide (seg ∈ keys (segment_types t))) as [|Hnot]; [done|].
  apply dict_get_None in Hnot. congruence.
Qed.


(** ** The aggregated union *)

Lemma elem_of_foldl_union (l : list (gset string)) (acc : gset string) h :
  h ∈ foldl (λ all_hosts hosts, all_hosts ∪ hosts) acc l ↔
  h ∈ acc ∨ ∃ hosts, hosts ∈ l ∧ h ∈ hosts.
Proof.
  revert acc. induction l as [|x l IH]; intros acc; simpl.
  - split; [by left | by intros [?|(? & []%elem_of_nil & _)]].
  - rewrite IH, elem_of_union. split.
    + intros [[?|?]|(hosts & ? & ?)]; [by left | right..].
      * exists x. split; [by left | done].
      * exists hosts. split; [by right | done].
    + intros [?|(hosts & [-> | ?]%elem_of_cons & ?)];
        [by left; left | by left; right | right; by exists hosts].
Qed.

(** A host is in the union exactly when some segment reaches it. *)
Lemma elem_of_host_union t h :
  NoDup (keys (segment_hosts t)) →
  h ∈ host_union t ↔ ∃ seg, reaches t seg h.
Proof.
  intros Hnd. unfold host_union, reaches. rewrite elem_of_foldl_union. split.
  - intros [[]%not_elem_of_empty|(hosts & Hin & Hh)].
    apply list_elem_of_fmap in Hin as ([seg hosts'] & -> & Hin).
    exists seg, hosts'. split; [by apply elem_of_dict_get | done].
  - intros (seg & hosts & Hget%dict_get_elem_of & Hh). right.
    exists hosts. split; [|done]. apply list_elem_of_fmap. by exists (seg, hosts).
Qed.

(** ** The sorted host list *)

Section sorted_hosts.
Variable set_iter : gset string → list string.
Hypothesis set_iter_perm : ∀ X, set_iter X ≡ₚ elements X.

Lemma all_hosts_perm t : all_hosts set_iter t ≡ₚ elements (host_union t).
Proof. unfold all_hosts. by rewrite merge_sort_Permutation. Qed.

Lemma elem_of_all_hosts t h : h ∈ all_hosts set_iter t ↔ h ∈ host_union t.
Proof. by rewrite all_hosts_perm, elem_of_elements. Qed.

Lemma all_hosts_sorted t : Sorted String.le (all_hosts set_iter t).
Proof. apply (Sorted_merge_sort _). Qed.

Lemma all_hosts_NoDup t : NoDup (all_hosts set_iter t).
Proof. rewrite all_hosts_perm. apply NoDup_elements. Qed.

Lemma all_hosts_empty t : host_union t = ∅ → all_hosts set_iter t = [].
Proof.
  intros Hempty. apply Permutation_nil_r.
  by rewrite all_hosts_perm, Hempty, elements_empty.
Qed.

Lemma all_hosts_singleton t h :
  host_union t = {[ h ]} → all_hosts set_iter t = [h].
Proof.
  intros Hone. apply Permutation_singleton_r.
  by rewrite all_hosts_perm, Hone, elements_singleton.
Qed.

(** With no host to list, the width of the host column is the [max] of
    an empty sequence. *)
Lemma report_no_hosts t w :
  host_union t = ∅ → report set_iter t w = (Raise ValueError, w).
Proof. intros Hempty. unfold report. by rewrite all_hosts_empty. Qed.

(** C3 fails on the code: with no input file the run does not complete.
    It stops with [ValueError] where the width of the host column is
    computed, before the first line is printed and before the HTML file
    is opened. *)
Theorem run_without_files_raises :
  run set_iter [] = (Raise ValueError, silent).
Proof. unfold run, main. simpl. by apply report_no_hosts. Qed.

End sorted_hosts.

Lemma run_without_files_raises_witness :
  run elements [] = (Raise ValueError, silent).
Proof. apply (run_without_files_raises elements). intros X. reflexivity. Defined.

(** The same failure whenever the files report no reachable host at all. *)
Example run_without_reachable_host :
  run elements [{| file_name := "PCI - DMZ.gnmap";
                   file_text := "Host: 10.0.0.5 ()" +:+ TAB +:+ "Status: Up" |}]
    = (Raise ValueError, silent).
Proof. vm_compute. reflexivity. Qed.

Lemma all_hosts_unique (iter1 iter2 : gset string → list string) (t : tables) :
  (∀ X, iter1 X ≡ₚ elements X) → (∀ X, iter2 X ≡ₚ elements X) →
  all_hosts iter1 t = all_hosts iter2 t.
Proof.
  intros H1 H2. apply (Sorted_unique String.le).
  - by apply all_hosts_sorted.
  - by apply all_hosts_sorted.
  - by rewrite !all_hosts_perm.
Qed.

(** C10: the output is a function of the ordered list of files alone.  The
    only place where something else could enter is the iteration order of
    the host set, which the language leaves open; whatever that order is
    in two runs, the result of the run, the text on standard output and
    the contents of the HTML file are the same. *)
Theorem run_deterministic (iter1 iter2 : gset string → list string)
    (gnmap_files : list scan_file) :
  (∀ X, iter1 X ≡ₚ elements X) → (∀ X, iter2 X ≡ₚ elements X) →
  run iter1 gnmap_files = run iter2 gnmap_files.
Proof.
  intros H1 H2. unfold run, main, mbind, script_bind, lift.
  destruct (load gnmap_files) as [t|e]; [|done].
  unfold report. by rewrite (all_hosts_unique iter1 iter2 t H1 H2).
Qed.

Lemma run_deterministic_witness :
  run elements [pci_dmz; non_pci_corp]
  = run (λ X, reverse (elements X)) [pci_dmz; non_pci_corp].
Proof.
  apply (run_deterministic elements (λ X, reverse (elements X))).
  - intros X. reflexivity.
  - intros X. apply reverse_Permutation.
Defined.

(** ** The two-file scenario *)

Lemma load_dmz_corp (f1 f2 : scan_file) :
  file_name f1 = "PCI - DMZ.gnmap" → file_name f2 = "NON PCI - Corp.gnmap" →
  scan_hosts f1 = Ok {["10.0.0.5"]} → scan_hosts f2 = Ok {["10.0.0.5"]} →
  load [f1; f2] = Ok dmz_then_corp ∧ load [f2; f1] = Ok corp_then_dmz.
Proof.
  intros Hn1 Hn2 Hs1 Hs2. unfold load, for_each, load_file.
  rewrite Hn1, Hn2, Hs1, Hs2.
  change (parse_segment "PCI - DMZ.gnmap") with (pci, "DMZ").
  change (parse_segment "NON PCI - Corp.gnmap") with (non_pci, "Corp").
  done.
Qed.

(** C4, as the code has it: the matrix has the one row [10.0.0.5] and the
    two columns [DMZ], [Corp]; both cells are marked, in the critical
    colour; the tier is critical; and two concern lines are emitted for the
    host, the multi-segment one and the PCI/non-PCI one. *)
Theorem scenario_pci_and_non_pci (set_iter : gset string → list string)
    (f1 f2 : scan_file) (gnmap_files : list scan_file) :
  (∀ X, set_iter X ≡ₚ elements X) →
  file_name f1 = "PCI - DMZ.gnmap" → file_name f2 = "NON PCI - Corp.gnmap" →
  scan_hosts f1 = Ok {["10.0.0.5"]} → scan_hosts f2 = Ok {["10.0.0.5"]} →
  gnmap_files = [f1; f2] ∨ gnmap_files = [f2; f1] →
  ∃ t, load gnmap_files = Ok t ∧
    all_hosts set_iter t = ["10.0.0.5"] ∧
    ordered_segments t = ["DMZ"; "Corp"] ∧
    text_cell t "10.0.0.5" "DMZ" = Ok (RED +:+ "X" +:+ RESET) ∧
    text_cell t "10.0.0.5" "Corp" = Ok (RED +:+ "X" +:+ RESET) ∧
    html_cell t "10.0.0.5" "DMZ"
      = Ok "<td style='background:#ffcccc;text-align:center;'>X</td>" ∧
    html_cell t "10.0.0.5" "Corp"
      = Ok "<td style='background:#ffcccc;text-align:center;'>X</td>" ∧
    host_tier t "10.0.0.5" = critical ∧
    (areas_of_concern t (all_hosts set_iter t)).*1 = [yellow; red].
Proof.
  intros Hperm Hn1 Hn2 Hs1 Hs2 Hfiles.
  destruct (load_dmz_corp f1 f2 Hn1 Hn2 Hs1 Hs2) as [H12 H21].
  destruct Hfiles as [-> | ->]; eexists; (split; [eassumption|]).
  - assert (all_hosts set_iter dmz_then_corp = ["10.0.0.5"]) as ->.
    { apply all_hosts_singleton; [done|]. vm_compute. reflexivity. }
    vm_compute. done.
  - assert (all_hosts set_iter corp_then_dmz = ["10.0.0.5"]) as ->.
    { apply all_hosts_singleton; [done|]. vm_compute. reflexivity. }
    vm_compute. done.
Qed.

Lemma pci_dmz_hosts : scan_hosts pci_dmz = Ok {["10.0.0.5"]}.
Proof. vm_compute. reflexivity. Qed.

Lemma non_pci_corp_hosts : scan_hosts non_pci_corp = Ok {["10.0.0.5"]}.
Proof. vm_compute. reflexivity. Qed.

Lemma scenario_pci_and_non_pci_witness :
  ∃ t, load [pci_dmz; non_pci_corp] = Ok t ∧
    all_hosts elements t = ["10.0.0.5"] ∧
    ordered_segments t = ["DMZ"; "Corp"] ∧
    text_cell t "10.0.0.5" "DMZ" = Ok (RED +:+ "X" +:+ RESET) ∧
    text_cell t "10.0.0.5" "Corp" = Ok (RED +:+ "X" +:+ RESET) ∧
    html_cell t "10.0.0.5" "DMZ"
      = Ok "<td style='background:#ffcccc;text-align:center;'>X</td>" ∧
    html_cell t "10.0.0.5" "Corp"
      = Ok "<td style='background:#ffcccc;text-align:center;'>X</td>" ∧
    host_tier t "10.0.0.5" = critical ∧
    (areas_of_concern t (all_hosts elements t)).*1 = [yellow; red].
Proof.
  apply (scenario_pci_and_non_pci elements pci_dmz non_pci_corp).
  - intros X. reflexivity.
  - reflexivity.
  - reflexivity.
  - vm_compute. reflexivity.
  - vm_compute. reflexivity.
  - left. reflexivity.
Defined.

(** C4, as the spec words it, fails on its last point: for these two files
    the concern list does not have exactly one line. *)
Lemma scenario_one_concern_line_counterexample :
  ∃ t, load [pci_dmz; non_pci_corp] = Ok t ∧
    length (areas_of_concern t (all_hosts elements t)) ≠ 1.
Proof. exists dmz_then_corp. split; [vm_compute; reflexivity|]. vm_compute. lia. Qed.

(** The two lines, as printed and as appended for the HTML report. *)
Example scenario_concern_lines :
  areas_of_concern dmz_then_corp ["10.0.0.5"] =
    [(yellow, "- Host 10.0.0.5 is reachable from multiple segments: DMZ, Corp");
     (red, "[!] Host 10.0.0.5 is reachable from both PCI and non-PCI segments: DMZ, Corp")].
Proof. vm_compute. reflexivity. Qed.

(** ** Stripping the colour codes *)

Lemma skip_params_length s : String.length (skip_params s) ≤ String.length s.
Proof.
  induction s as [|c s IH]; simpl; [lia|].
  destruct (is_param c); simpl; lia.
Qed.

Lemma match_ansi_shorter s rest :
  match_ansi s = Some rest → String.length rest < String.length s.
Proof.
  unfold match_ansi. destruct s as [|c0 [|c1 s]]; try done.
  destruct (_ && _); [|done].
  pose proof (skip_params_length s) as Hlen.
  destruct (skip_params s) as [|c2 rest']; [done|].
  destruct (bool_decide _); [|done].
  intros [= <-]. simpl in *. lia.
Qed.

Lemma strip_ansi_go_fuel n m s :
  String.length s ≤ n → String.length s ≤ m →
  strip_ansi_go n s = strip_ansi_go m s.
Proof.
  revert m s.
  induction n as [|n IH]; intros [|m] [|c s];
    cbn [strip_ansi_go String.length]; try done; try lia.
  intros Hn Hm.
  destruct (match_ansi (String c s)) as [rest|] eqn:Hmatch.
  - apply match_ansi_shorter in Hmatch. simpl in Hmatch. apply IH; lia.
  - f_equal. apply IH; lia.
Qed.

(** The equation of [re.sub]: drop a match at the head and go on after it,
    otherwise keep the character and go on with the next one. *)
Lemma strip_ansi_unfold c s :
  strip_ansi (String c s) =
    match match_ansi (String c s) with
    | Some rest => strip_ansi rest
    | None => String c (strip_ansi s)
    end.
Proof.
  unfold strip_ansi. cbn [String.length strip_ansi_go].
  destruct (match_ansi (String c s)) as [rest|] eqn:Hmatch; [|done].
  apply match_ansi_shorter in Hmatch. simpl in Hmatch.
  apply strip_ansi_go_fuel; lia.
Qed.

(** ** The report is produced whenever some host is reachable *)

Lemma completes_print s : completes (print s).
Proof. intros w. by eexists. Qed.

Lemma completes_fwrite s : completes (fwrite s).
Proof.
  intros w. eexists. split; [done|]. simpl. intros [page ->]. by eexists.
Qed.

Lemma opens_fopen : opens fopen.
Proof. intros w. eexists. split; [done|]. by eexists. Qed.

Lemma completes_ret : completes (mret ()).
Proof. intros w. by eexists. Qed.

Lemma completes_seq (m k : script unit) :
  completes m → completes k → completes (m;; k).
Proof.
  intros Hm Hk w. destruct (Hm w) as (w1 & Hw1 & H1).
  destruct (Hk w1) as (w2 & Hw2 & H2).
  exists w2. unfold mbind, script_bind. rewrite Hw1. auto.
Qed.

Lemma opens_then (m k : script unit) :
  opens m → completes k → opens (m;; k).
Proof.
  intros Hm Hk w. destruct (Hm w) as (w1 & Hw1 & H1).
  destruct (Hk w1) as (w2 & Hw2 & H2).
  exists w2. unfold mbind, script_bind. rewrite Hw1. auto.
Qed.

Lemma then_opens (m k : script unit) :
  completes m → opens k → opens (m;; k).
Proof.
  intros Hm Hk w. destruct (Hm w) as (w1 & Hw1 & H1).
  destruct (Hk w1) as (w2 & Hw2 & H2).
  exists w2. unfold mbind, script_bind. by rewrite Hw1.
Qed.

Lemma completes_lift {A : Type} (r : result A) (k : A → script unit) a :
  r = Ok a → completes (k a) → completes (x ← lift r; k x).
Proof. intros -> Hk w. apply Hk. Qed.

Lemma opens_lift {A : Type} (r : result A) (k : A → script unit) a :
  r = Ok a → opens (k a) → opens (x ← lift r; k x).
Proof. intros -> Hk w. apply Hk. Qed.

Lemma completes_for_ {A : Type} (l : list A) (body : A → script unit) :
  (∀ x, x ∈ l → completes (body x)) → completes (for_ l body).
Proof.
  induction l as [|x l IH]; intros Hbody; simpl; [apply completes_ret|].
  apply completes_seq; [apply Hbody; by left|].
  apply IH. intros y Hy. apply Hbody. by right.
Qed.

Lemma for_each_Ok {A S : Type} (body : S → A → result S) l s :
  (∀ s x, x ∈ l → ∃ s', body s x = Ok s') → ∃ s', for_each body s l = Ok s'.
Proof.
  revert s. induction l as [|x l IH]; intros s Hbody; simpl; [by eexists|].
  destruct (Hbody s x) as [s1 ->]; [by left|]. simpl.
  apply IH. intros s2 y Hy. apply Hbody. by right.
Qed.

Lemma getitem_column t segment :
  loaded t → segment ∈ ordered_segments t →
  ∃ hosts, getitem segment (segment_hosts t) = Ok hosts.
Proof.
  intros Hload Hseg. unfold getitem.
  pose proof (ordered_segments_keys t segment Hload Hseg) as Hkey.
  destruct (dict_get segment (segment_hosts t)) as [hosts|] eqn:Hget;
    [by exists hosts | by apply dict_get_None in Hget].
Qed.

Lemma text_row_Ok t host_col_width seg_col_width h :
  loaded t → ∃ row, text_row t host_col_width seg_col_width h = Ok row.
Proof.
  intros Hload. apply for_each_Ok. intros row segment Hseg.
  unfold text_cell.
  destruct (getitem_column t segment Hload Hseg) as [hosts ->]. simpl.
  destruct (bool_decide _); by eexists.
Qed.

Lemma column_width_Ok (names : list string) :
  names ≠ [] → ∃ width, column_width names = Ok width.
Proof. destruct names; [done|]. intros _. by eexists. Qed.

Lemma completes_print_classification t w1 w2 :
  completes (print_classification t w1 w2).
Proof. repeat apply completes_seq; apply completes_print. Qed.

Lemma completes_print_key t w1 w2 : completes (print_key t w1 w2).
Proof. repeat apply completes_seq; apply completes_print. Qed.

Lemma completes_print_matrix t hosts w1 w2 :
  loaded t → completes (print_matrix t hosts w1 w2).
Proof.
  intros Hload. repeat apply completes_seq; try apply completes_print.
  apply completes_for_. intros h _.
  destruct (text_row_Ok t w1 w2 h Hload) as [row Hrow].
  apply (completes_lift _ _ row Hrow), completes_print.
Qed.

Lemma completes_print_concerns t hosts : completes (print_concerns t hosts).
Proof.
  repeat apply completes_seq; try apply completes_print.
  - apply completes_for_. intros h _. apply completes_for_.
    intros [colour msg] _. apply completes_print.
  - destruct (areas_of_concern _ _); [apply completes_print | apply completes_ret].
Qed.

Lemma completes_print_breakdown : completes print_breakdown.
Proof. repeat apply completes_seq; apply completes_print. Qed.

Lemma opens_write_html t hosts : loaded t → opens (write_html t hosts).
Proof.
  intros Hload. unfold write_html. apply opens_then; [apply opens_fopen|].
  repeat apply completes_seq; try apply completes_fwrite.
  - apply completes_for_. intros seg _. apply completes_fwrite.
  - apply completes_for_. intros h _.
    repeat apply completes_seq; try apply completes_fwrite.
    apply completes_for_. intros segment Hseg.
    destruct (getitem_column t segment Hload Hseg) as [hosts' Hget].
    unfold html_cell. rewrite Hget. simpl.
    destruct (bool_decide _); apply (completes_lift _ _ _ eq_refl), completes_fwrite.
  - destruct (areas_of_concern _ _) as [|c concerns];
      [apply completes_fwrite|].
    apply completes_for_. intros c' _. apply completes_fwrite.
Qed.

Lemma report_opens (set_iter : gset string → list string) (t : tables) :
  (∀ X, set_iter X ≡ₚ elements X) → loaded t → host_union t ≠ ∅ →
  opens (report set_iter t).
Proof.
  intros Hperm Hload Hhosts. unfold report.
  assert (∃ h, h ∈ host_union t) as [h Hh].
  { apply set_choose_L in Hhosts as [h Hh]. by exists h. }
  destruct (column_width_Ok (all_hosts set_iter t)) as [w1 Hw1].
  { intros Hnil. apply (elem_of_all_hosts set_iter Hperm) in Hh.
    rewrite Hnil in Hh. by apply elem_of_nil in Hh. }
  destruct (column_width_Ok (keys (segment_hosts t))) as [w2 Hw2].
  { apply (elem_of_host_union t h (proj1 Hload)) in Hh
      as (seg & hosts & Hget%dict_get_elem_of & _).
    intros Hnil. unfold keys in Hnil. apply fmap_nil_inv in Hnil.
    rewrite Hnil in Hget. by apply elem_of_nil in Hget. }
  apply (opens_lift _ _ w1 Hw1), (opens_lift _ _ w2 Hw2).
  apply then_opens; [apply completes_print_classification|].
  apply then_opens; [apply completes_print_key|].
  apply then_opens; [by apply completes_print_matrix|].
  apply then_opens; [apply completes_print_concerns|].
  apply then_opens; [apply completes_print_breakdown|].
  apply opens_then; [by apply opens_write_html | apply completes_print].
Qed.

Lemma load_Ok (gnmap_files : list scan_file) :
  (∀ f line, f ∈ gnmap_files → line ∈ file_lines f →
             Str.startswith line "Host:" = true →
             is_Some (Str.split line !! 1%nat)) →
  ∃ t, load gnmap_files = Ok t.
Proof.
  intros Hwf. apply for_each_Ok. intros t f Hf. unfold load_file.
  destruct (parse_segment (file_name f)) as [typ name].
  destruct (scan_lines_spec (file_lines f) ∅) as (hosts & Hscan & _).
  { intros line. by apply Hwf. }
  unfold scan_hosts. rewrite Hscan. by eexists.
Qed.

Lemma run_opens (set_iter : gset string → list string)
    (gnmap_files : list scan_file) (t : tables) :
  (∀ X, set_iter X ≡ₚ elements X) →
  load gnmap_files = Ok t → host_union t ≠ ∅ →
  ∃ out page,
    run set_iter gnmap_files = (Ok (), {| stdout := out; html := Some page |}).
Proof.
  intros Hperm Hload Hhosts. unfold run, main. rewrite Hload.
  destruct (report_opens set_iter t Hperm (load_loaded _ _ Hload) Hhosts
              {| stdout := ""; html := None |}) as ([out [page|]] & Hrun & Hpage).
  - by exists out, page.
  - by destruct Hpage.
Qed.


(** * Further properties of the script *)

(** ** Strings as lists of characters *)

Lemma app_cons c s1 s2 : String c s1 +:+ s2 = String c (s1 +:+ s2).
Proof. done. Qed.

Lemma app_empty_l s : "" +:+ s = s.
Proof. done. Qed.

Lemma app_empty_r s : s +:+ "" = s.
Proof. induction s as [|c s IH]; [done|]. by rewrite app_cons, IH. Qed.

Lemma app_assoc_str s1 s2 s3 : (s1 +:+ s2) +:+ s3 = s1 +:+ s2 +:+ s3.
Proof. induction s1 as [|c s1 IH]; [done|]. by rewrite !app_cons, IH. Qed.

Lemma length_app_str s1 s2 :
  String.length (s1 +:+ s2) = String.length s1 + String.length s2.
Proof.
  induction s1 as [|c s1 IH]; [done|]. rewrite app_cons. simpl. by rewrite IH.
Qed.

Lemma length_repeat_char c n : String.length (Str.repeat (String c "") n) = n.
Proof.
  induction n as [|n IH]; [done|].
  cbn [Str.repeat]. by rewrite length_app_str, IH.
Qed.

Lemma chars_app s1 s2 : chars (s1 +:+ s2) = chars s1 ++ chars s2.
Proof. induction s1 as [|c s1 IH]; [done|]. rewrite app_cons. simpl. by rewrite IH. Qed.

(** ** Colour codes and padding *)

Lemma match_ansi_no_escape c s : c ≠ ESC → match_ansi (String c s) = None.
Proof.
  intros Hc. unfold match_ansi. destruct s as [|c1 s]; [done|].
  by rewrite (bool_decide_eq_false_2 _ Hc).
Qed.

(** X1: a string without the escape character has no colour code to lose:
    [strip_ansi] returns it unchanged. *)
Theorem strip_ansi_plain (s : string) :
  ESC ∉ chars s → strip_ansi s = s.
Proof.
  induction s as [|c s IH]; [done|]. simpl.
  rewrite not_elem_of_cons. intros [Hc Hs].
  rewrite strip_ansi_unfold, match_ansi_no_escape by done.
  by rewrite IH.
Qed.

Lemma strip_ansi_plain_witness : strip_ansi "10.0.0.5" = "10.0.0.5".
Proof.
  apply (strip_ansi_plain "10.0.0.5"). vm_compute.
  intros H. repeat (apply elem_of_cons in H as [H|H]; [discriminate H|]).
  by apply elem_of_nil in H.
Defined.

Lemma skip_params_all params s :
  Forall (λ c, is_param c = true) (chars params) →
  skip_params (params +:+ String "m" s) = String "m" s.
Proof.
  induction params as [|c params IH]; [done|]. intros Hall.
  change (chars (String c params)) with (c :: chars params) in Hall.
  apply Forall_cons in Hall as [Hc Hparams].
  rewrite app_cons. cbn [skip_params]. rewrite Hc. by apply IH.
Qed.

(** X2: a complete colour code, the escape character, [[], any run of
    digits and semicolons, and [m], is removed whole, whatever the run. *)
Theorem strip_ansi_code (params s : string) :
  Forall (λ c, is_param c = true) (chars params) →
  strip_ansi (String ESC (String "[" (params +:+ String "m" s))) = strip_ansi s.
Proof.
  intros Hparams. rewrite strip_ansi_unfold. unfold match_ansi.
  rewrite !bool_decide_eq_true_2 by done. simpl.
  by rewrite (skip_params_all params s Hparams).
Qed.

Lemma strip_ansi_code_witness :
  strip_ansi (String ESC (String "[" ("1;91" +:+ String "m" "X"))) = strip_ansi "X".
Proof.
  apply (strip_ansi_code "1;91" "X"). vm_compute. repeat constructor.
Defined.

Lemma strip_ansi_length_le n s :
  String.length s ≤ n → String.length (strip_ansi s) ≤ String.length s.
Proof.
  revert s. induction n as [|n IH]; intros [|c s]; simpl; try done; try lia.
  intros Hn. rewrite strip_ansi_unfold.
  destruct (match_ansi (String c s)) as [rest|] eqn:Hmatch.
  - apply match_ansi_shorter in Hmatch. simpl in Hmatch.
    assert (String.length rest ≤ n) as Hrest%IH by lia. lia.
  - simpl. assert (String.length s ≤ n) as Hs%IH by lia. lia.
Qed.

Lemma skip_params_app_space s t :
  (t = "" ∨ ∃ t', t = String " " t') →
  skip_params (s +:+ t) =
    match skip_params s with
    | "" => t
    | String c rest => String c (rest +:+ t)
    end.
Proof.
  intros Ht. induction s as [|c s IH].
  - rewrite app_empty_l. destruct Ht as [->|[t' ->]]; done.
  - rewrite app_cons. cbn [skip_params]. by destruct (is_param c).
Qed.

Lemma match_ansi_app_space s t :
  (t = "" ∨ ∃ t', t = String " " t') →
  match_ansi (s +:+ t) = (λ rest, rest +:+ t) <$> match_ansi s.
Proof.
  intros Ht. destruct s as [|c0 [|c1 s]].
  - rewrite app_empty_l. destruct Ht as [->|[[|c t'] ->]]; done.
  - rewrite app_cons, app_empty_l. destruct Ht as [->|[t' ->]]; [done|].
    unfold match_ansi. by rewrite andb_false_r.
  - rewrite !app_cons. unfold match_ansi.
    destruct (_ && _); [|done].
    rewrite (skip_params_app_space s t Ht).
    destruct (skip_params s) as [|c2 rest].
    + destruct Ht as [->|[t' ->]]; done.
    + by destruct (bool_decide (c2 = "m"%char)).
Qed.

Lemma strip_ansi_app_space_fuel n s t :
  String.length s ≤ n → (t = "" ∨ ∃ t', t = String " " t') →
  strip_ansi (s +:+ t) = strip_ansi s +:+ strip_ansi t.
Proof.
  intros Hn Ht. revert s Hn.
  induction n as [|n IH]; intros [|c s] Hn; simpl in Hn; try done; try lia.
  rewrite app_cons, !strip_ansi_unfold.
  rewrite <- app_cons, (match_ansi_app_space (String c s) t Ht).
  destruct (match_ansi (String c s)) as [rest|] eqn:Hmatch; simpl.
  - apply match_ansi_shorter in Hmatch. simpl in Hmatch. apply IH. lia.
  - rewrite app_cons. f_equal. apply IH. lia.
Qed.

Lemma chars_repeat_space n : chars (Str.repeat " " n) = replicate n " "%char.
Proof.
  induction n as [|n IH]; [done|].
  cbn [Str.repeat]. by rewrite chars_app, IH.
Qed.

Lemma strip_ansi_spaces n : strip_ansi (Str.repeat " " n) = Str.repeat " " n.
Proof.
  induction n as [|n IH]; [done|]. cbn [Str.repeat].
  rewrite app_cons, app_empty_l, strip_ansi_unfold, match_ansi_no_escape by done.
  by rewrite IH.
Qed.

Lemma visible_length_pad_cell (s : string) (width : nat) :
  visible_length (pad_cell s width) = Nat.max width (visible_length s).
Proof.
  unfold visible_length, pad_cell.
  rewrite (strip_ansi_app_space_fuel (String.length s) s) by
    (first [lia | destruct (width - _); [by left | right; by eexists]]).
  rewrite strip_ansi_spaces, length_app_str, length_repeat_char. lia.
Qed.

(** X3: padding counts visible characters only: stripped of its colour
    codes, a padded cell is [width] characters long, or as long as the
    visible text when that is longer (nothing is ever cut). *)
Theorem pad_cell_visible_length (s : string) (width : nat) :
  visible_length (pad_cell s width) = Nat.max width (visible_length s).
Proof. apply visible_length_pad_cell. Qed.

Lemma foldl_max_ge (l : list nat) (x y : nat) :
  y = x ∨ y ∈ l → y ≤ foldl Nat.max x l.
Proof.
  revert x y. induction l as [|z l IH]; intros x y; simpl.
  - intros [->|[]%elem_of_nil]. done.
  - intros [->|[->|Hy]%elem_of_cons].
    + transitivity (Nat.max x z); [lia | apply IH; by left].
    + transitivity (Nat.max x z); [lia | apply IH; by left].
    + apply IH. by right.
Qed.

(** X4: a column width is at least 15 and leaves at least two characters
    after the longest name, so every name of the column, once padded, is
    exactly as wide as the column. *)
Theorem column_width_fits (names : list string) (width : nat) (name : string) :
  column_width names = Ok width → name ∈ names →
  15 ≤ width ∧ String.length name + 2 ≤ width ∧
  visible_length (pad_cell name width) = width.
Proof.
  unfold column_width, py_max. destruct names as [|x names]; [done|].
  rewrite fmap_cons. unfold mbind, result_bind.
  intros [= <-] Hname.
  assert (String.length name ≤ foldl Nat.max (String.length x)
            (String.length <$> names)) as Hlen.
  { apply foldl_max_ge. apply elem_of_cons in Hname as [->|Hname]; [by left|].
    right. by apply list_elem_of_fmap_2. }
  split_and!; [lia..|].
  rewrite visible_length_pad_cell.
  pose proof (strip_ansi_length_le _ name (le_n _)). unfold visible_length. lia.
Qed.

Lemma column_width_fits_witness :
  15 ≤ 15 ∧ String.length "Corp" + 2 ≤ 15 ∧
  visible_length (pad_cell "Corp" 15) = 15.
Proof.
  apply (column_width_fits ["DMZ"; "Corp"] 15 "Corp").
  - reflexivity.
  - right. left.
Defined.

(** ** File names *)

Lemma rfind_go_app c s1 s2 i last :
  Str.rfind_go c (s1 +:+ s2) i last =
  Str.rfind_go c s2 (i + Z.of_nat (String.length s1))%Z (Str.rfind_go c s1 i last).
Proof.
  revert i last. induction s1 as [|a s1 IH]; intros i last.
  - rewrite app_empty_l. simpl. by rewrite Z.add_0_r.
  - rewrite app_cons. cbn [Str.rfind_go String.length]. rewrite IH.
    f_equal. lia.
Qed.

Lemma rfind_go_absent c s i last :
  c ∉ chars s → Str.rfind_go c s i last = last.
Proof.
  revert i last. induction s as [|a s IH]; intros i last; [done|].
  change (chars (String a s)) with (a :: chars s).
  rewrite not_elem_of_cons. intros [Hne Hs]. cbn [Str.rfind_go].
  rewrite decide_False by done. by apply IH.
Qed.

Lemma rfind_go_bound c s i last :
  (last < i)%Z →
  (Str.rfind_go c s i last < i + Z.of_nat (String.length s))%Z.
Proof.
  revert i last. induction s as [|a s IH]; intros i last Hlast.
  - simpl. lia.
  - cbn [Str.rfind_go String.length]. rewrite Nat2Z.inj_succ.
    pose proof (IH (i + 1)%Z (if decide (a = c) then i else last)) as Hs.
    destruct (decide (a = c)); lia.
Qed.

Lemma slice_to_app s1 s2 : Str.slice_to (String.length s1) (s1 +:+ s2) = s1.
Proof.
  induction s1 as [|c s1 IH]; [by destruct s2|].
  rewrite app_cons. simpl. by rewrite IH.
Qed.

Lemma slice_from_app s1 s2 : Str.slice_from (String.length s1) (s1 +:+ s2) = s2.
Proof. induction s1 as [|c s1 IH]; [done|]. by rewrite app_cons. Qed.

Lemma splitext_stem (stem : string) :
  all_dots stem = false → "/"%char ∉ chars stem →
  splitext (stem +:+ ".gnmap") = (stem, ".gnmap").
Proof.
  intros Hdots Hsep. unfold splitext, Str.rfind.
  rewrite !rfind_go_app, !(rfind_go_absent "/"%char stem) by done.
  pose proof (rfind_go_bound "." stem 0 (-1)) as Hlast.
  change (Str.rfind_go "/" ".gnmap" ?i ?last) with last.
  change (Str.rfind_go "." ".gnmap" ?i ?last) with i.
  rewrite bool_decide_eq_true_2 by lia.
  unfold Str.slice. rewrite !Z.add_0_l, Z.sub_0_r, !Nat2Z.id.
  change (Z.to_nat (-1 + 1)) with 0. change (Z.to_nat 0) with 0.
  rewrite Z.sub_0_r, Nat2Z.id. cbn [Str.slice_from].
  by rewrite slice_to_app, Hdots, slice_from_app.
Qed.

(** X5: for a file name made of a stem and the extension [.gnmap], where
    the stem has no path separator and is not made of dots only, the base
    that [parse_segment] works on is the stem. *)
Theorem splitext_gnmap (stem : string) :
  all_dots stem = false → "/"%char ∉ chars stem →
  (splitext (stem +:+ ".gnmap")).1 = stem.
Proof. intros Hdots Hsep. by rewrite splitext_stem. Qed.

Lemma splitext_gnmap_witness : (splitext ("scan.v2" +:+ ".gnmap")).1 = "scan.v2".
Proof.
  apply (splitext_gnmap "scan.v2"); [reflexivity|].
  vm_compute. intros H.
  repeat (apply elem_of_cons in H as [H|H]; [discriminate H|]).
  by apply elem_of_nil in H.
Defined.

Lemma starts_ci_app p s1 s2 :
  Str.starts_ci p s1 = true → Str.starts_ci p (s1 +:+ s2) = true.
Proof.
  revert s1. induction p as [|a p IH]; intros [|b s1]; try done.
  rewrite app_cons. cbn [Str.starts_ci].
  intros [-> Hp]%andb_true_iff. by rewrite IH.
Qed.

Lemma starts_ci_not_dots a p s :
  Str.starts_ci (String a p) s = true → Str.lower_char a ≠ "."%char →
  all_dots s = false.
Proof.
  destruct s as [|b s]; [done|]. cbn [Str.starts_ci all_dots].
  intros [Hab _]%andb_true_iff Ha. apply bool_decide_eq_true in Hab.
  rewrite bool_decide_eq_false_2; [done|]. intros ->. by apply Ha.
Qed.

(** X6: the naming convention for PCI segments.  A file named with a
    six-character prefix that starts, in any letter case, with [pci -],
    then a name, then [.gnmap], is a [pci] segment called by the trimmed
    name; the sixth character is dropped whatever it is. *)
Theorem pci_file_name (pre name : string) :
  String.length pre = 6 → Str.starts_ci "pci -" pre = true →
  "/"%char ∉ chars (pre +:+ name) →
  parse_segment (pre +:+ name +:+ ".gnmap") = (pci, Str.strip name).
Proof.
  intros Hlen Hci Hsep. unfold parse_segment, Str.startswith.
  rewrite <- app_assoc_str, splitext_stem;
    [|by eapply starts_ci_not_dots; [apply starts_ci_app|]|done].
  cbn [fst]. rewrite prefix_lower_ci, starts_ci_app by done.
  by rewrite <- Hlen, slice_from_app.
Qed.

Lemma pci_file_name_witness :
  parse_segment ("Pci -_" +:+ "DMZ " +:+ ".gnmap") = (pci, Str.strip "DMZ ").
Proof.
  apply (pci_file_name "Pci -_" "DMZ "); [reflexivity..|].
  vm_compute. intros H.
  repeat (apply elem_of_cons in H as [H|H]; [discriminate H|]).
  by apply elem_of_nil in H.
Defined.

Lemma starts_ci_non_pci_not_pci s :
  Str.starts_ci "non pci -" s = true → Str.starts_ci "pci -" s = false.
Proof.
  destruct s as [|b s]; [done|]. cbn [Str.starts_ci].
  intros [Hb _]%andb_true_iff. apply bool_decide_eq_true in Hb.
  rewrite bool_decide_eq_false_2; [done|].
  intros Hp. rewrite <- Hb in Hp. vm_compute in Hp. discriminate Hp.
Qed.

(** X7: the naming convention for non-PCI segments.  A file named with a
    ten-character prefix that starts, in any letter case, with
    [non pci -], then a name, then [.gnmap], is a [non_pci] segment called
    by the trimmed name; the tenth character is dropped whatever it is. *)
Theorem non_pci_file_name (pre name : string) :
  String.length pre = 10 → Str.starts_ci "non pci -" pre = true →
  "/"%char ∉ chars (pre +:+ name) →
  parse_segment (pre +:+ name +:+ ".gnmap") = (non_pci, Str.strip name).
Proof.
  intros Hlen Hci Hsep. unfold parse_segment, Str.startswith.
  rewrite <- app_assoc_str, splitext_stem;
    [|by eapply starts_ci_not_dots; [apply starts_ci_app|]|done].
  cbn [fst]. rewrite !prefix_lower_ci by done.
  rewrite (starts_ci_non_pci_not_pci (pre +:+ name)), starts_ci_app
    by (by apply starts_ci_app || done).
  by rewrite <- Hlen, slice_from_app.
Qed.

Lemma non_pci_file_name_witness :
  parse_segment ("NON PCI - " +:+ "Corp" +:+ ".gnmap")
    = (non_pci, Str.strip "Corp").
Proof.
  apply (non_pci_file_name "NON PCI - " "Corp"); [reflexivity..|].
  vm_compute. intros H.
  repeat (apply elem_of_cons in H as [H|H]; [discriminate H|]).
  by apply elem_of_nil in H.
Defined.

(** ** More on the load loop *)

Lemma scan_lines_Ok lines acc hosts :
  for_each scan_line acc lines = Ok hosts →
  ∀ ip, ip ∈ hosts ↔ ip ∈ acc ∨ ∃ line, line ∈ lines ∧ host_record line ip.
Proof.
  revert acc. induction lines as [|line lines IH]; intros acc; simpl.
  - intros [= <-] ip. split; [by left|].
    intros [?|(? & []%elem_of_nil & _)]; done.
  - destruct (scan_line acc line) as [acc'|e] eqn:Hline; simpl; [|done].
    intros Hrest ip. rewrite (IH _ Hrest), (scan_line_Ok _ _ _ Hline). split.
    + intros [[?|?]|(l & ? & ?)]; [by left | right..].
      * exists line. split; [by left | done].
      * exists l. split; [by right | done].
    + intros [?|(l & [-> | ?]%elem_of_cons & ?)];
        [by left; left | by left; right | right; by exists l].
Qed.

Lemma scan_lines_Raise lines acc e :
  for_each scan_line acc lines = Raise e →
  e = IndexError ∧ ∃ line, line ∈ lines ∧ malformed line.
Proof.
  revert acc. induction lines as [|line lines IH]; intros acc; simpl; [done|].
  destruct (scan_line acc line) as [acc'|e'] eqn:Hline; simpl.
  - intros (-> & l & ? & ?)%IH. split; [done|]. exists l. split; [by right|done].
  - intros [= ->]. apply scan_line_Raise in Hline as (-> & ? & ?).
    split; [done|]. exists line. split; [by left | done].
Qed.

(** X8: after the load loop the host-set map and the type map have the
    same keys in the same order, each once; so a segment taken from one
    map is never missing from the other. *)
Theorem load_tables_aligned (gnmap_files : list scan_file) (t : tables) :
  load gnmap_files = Ok t →
  NoDup (keys (segment_hosts t)) ∧
  keys (segment_hosts t) = keys (segment_types t).
Proof. apply load_loaded. Qed.

Lemma load_tables_aligned_witness :
  NoDup (keys (segment_hosts dmz_then_corp)) ∧
  keys (segment_hosts dmz_then_corp) = keys (segment_types dmz_then_corp).
Proof.
  apply (load_tables_aligned [pci_dmz; non_pci_corp]). vm_compute. reflexivity.
Defined.

Lemma elem_of_keys_dict_set {V : Type} k (v : V) d seg :
  seg ∈ keys (dict_set k v d) ↔ seg = k ∨ seg ∈ keys d.
Proof.
  rewrite keys_dict_set. case_decide.
  - split; [by right | by intros [->|?]].
  - rewrite elem_of_app, list_elem_of_singleton. split; intros [?|?]; auto.
Qed.

Lemma length_dict_set {V : Type} k (v : V) d :
  length (dict_set k v d) ≤ S (length d).
Proof.
  pose proof (keys_dict_set k v d) as Hkeys. unfold keys in Hkeys.
  apply (f_equal length) in Hkeys. rewrite length_fmap in Hkeys.
  case_decide; rewrite ?length_app, !length_fmap in Hkeys; simpl in *; lia.
Qed.

Lemma load_from_names files t0 t :
  for_each load_file t0 files = Ok t →
  (∀ seg, seg ∈ keys (segment_types t) ↔
     seg ∈ keys (segment_types t0) ∨ ∃ f, f ∈ files ∧ seg_name_of f = seg) ∧
  length (segment_types t) ≤ length (segment_types t0) + length files.
Proof.
  revert t0. induction files as [|g files IH]; intros t0; simpl.
  - intros [= <-]. split; [|lia]. intros seg. split; [by left|].
    intros [?|(? & []%elem_of_nil & _)]; done.
  - destruct (load_file t0 g) as [t1|e] eqn:Hg; simpl; [|done].
    intros [Hkeys Hlen]%IH.
    apply load_file_inv in Hg as (hosts & _ & _ & Htypes).
    rewrite Htypes in Hkeys, Hlen.
    pose proof (length_dict_set (seg_name_of g) (seg_type_of g) (segment_types t0)).
    split; [|lia]. intros seg. rewrite Hkeys, elem_of_keys_dict_set. split.
    + intros [[->|?]|(f & ? & ?)]; [right | by left | right].
      * exists g. split; [by left | done].
      * exists f. split; [by right | done].
    + intros [?|(f & [-> | ?]%elem_of_cons & <-)];
        [by left; right | by left; left | right; by exists f].
Qed.

(** X9: the segments are the names derived from the files: a name is a key
    of the maps exactly when some file derives it, and there are never
    more segments than files. *)
Theorem segments_are_derived_names (gnmap_files : list scan_file) (t : tables) :
  load gnmap_files = Ok t →
  (∀ seg, seg ∈ keys (segment_types t) ↔
     ∃ f, f ∈ gnmap_files ∧ seg_name_of f = seg) ∧
  length (segment_types t) ≤ length gnmap_files.
Proof.
  intros [Hkeys Hlen]%load_from_names. split; [|done].
  intros seg. rewrite Hkeys. split; [|by right].
  intros [[]%elem_of_nil|?]; done.
Qed.

Lemma segments_are_derived_names_witness :
  (∀ seg, seg ∈ keys (segment_types dmz_then_corp) ↔
     ∃ f, f ∈ [pci_dmz; non_pci_corp] ∧ seg_name_of f = seg) ∧
  length (segment_types dmz_then_corp) ≤ length [pci_dmz; non_pci_corp].
Proof.
  apply (segments_are_derived_names [pci_dmz; non_pci_corp]).
  vm_compute. reflexivity.
Defined.

Lemma load_Raise files t0 e :
  for_each load_file t0 files = Raise e →
  e = IndexError ∧
  ∃ f line, f ∈ files ∧ line ∈ file_lines f ∧ malformed line.
Proof.
  revert t0. induction files as [|g files IH]; intros t0; simpl; [done|].
  destruct (load_file t0 g) as [t1|e'] eqn:Hg; simpl.
  - intros (-> & f & line & ? & ? & ?)%IH. split; [done|].
    exists f, line. split_and!; [by right | done..].
  - intros [= ->]. apply load_file_Raise, scan_lines_Raise in Hg
      as (-> & line & ? & ?).
    split; [done|]. exists g, line. split_and!; [by left | done..].
Qed.

(** X10: the [IndexError] of the load loop has one cause: the loop raises
    it exactly when some file has a [Host:] line with fewer than two
    tokens. *)
Theorem index_error_iff_malformed (gnmap_files : list scan_file) :
  load gnmap_files = Raise IndexError ↔
  ∃ f line, f ∈ gnmap_files ∧ line ∈ file_lines f ∧ malformed line.
Proof.
  split; [by intros [_ ?]%load_Raise|].
  intros (f & line & Hf & Hline & Hhost & Hlen).
  apply (load_malformed _ _ f Hf).
  by apply (scan_lines_malformed _ _ line).
Qed.

(** ** Where the hosts of a segment come from *)

Lemma scan_hosts_Ok f hosts :
  scan_hosts f = Ok hosts →
  ∀ ip, ip ∈ hosts ↔ ∃ line, line ∈ file_lines f ∧ host_record line ip.
Proof.
  intros Hscan ip. rewrite (scan_lines_Ok _ _ _ Hscan ip).
  split; [intros [[]%not_elem_of_empty|?]; done | by right].
Qed.

Lemma reaches_record (gnmap_files : list scan_file) (t : tables)
    (seg h : string) :
  load gnmap_files = Ok t → reaches t seg h →
  ∃ f line, f ∈ gnmap_files ∧ seg_name_of f = seg ∧
    line ∈ file_lines f ∧ host_record line h.
Proof.
  intros Hload. revert seg h. revert Hload.
  apply (for_each_invariant
    (λ t, ∀ seg h, reaches t seg h →
       ∃ f line, f ∈ gnmap_files ∧ seg_name_of f = seg ∧
         line ∈ file_lines f ∧ host_record line h)).
  - intros t0 g t1 IH Hg (hosts & Hscan & Hhosts & _)%load_file_inv seg h.
    intros (hs & Hget & Hh). rewrite Hhosts, dict_get_set in Hget.
    destruct (decide (seg_name_of g = seg)) as [Hname|Hname].
    + injection Hget as <-.
      apply (scan_hosts_Ok g hosts Hscan) in Hh as (line & ? & ?).
      by exists g, line.
    + apply IH. by exists hs.
  - intros seg h (hs & Hget & _). done.
Qed.

(** X11: nothing is listed that no file reports: when a segment reaches a
    host in the loaded tables, some file deriving that segment's name has
    a reachable-host record for that address. *)
Theorem reached_host_has_record (gnmap_files : list scan_file) (t : tables)
    (seg h : string) :
  load gnmap_files = Ok t → reaches t seg h →
  ∃ f line, f ∈ gnmap_files ∧ seg_name_of f = seg ∧
    line ∈ file_lines f ∧ host_record line h.
Proof. apply reaches_record. Qed.

Lemma reached_host_has_record_witness :
  ∃ f line, f ∈ [pci_dmz; non_pci_corp] ∧ seg_name_of f = "DMZ" ∧
    line ∈ file_lines f ∧ host_record line "10.0.0.5".
Proof.
  apply (reached_host_has_record [pci_dmz; non_pci_corp] dmz_then_corp).
  - vm_compute. reflexivity.
  - exists {["10.0.0.5"]}. split; [reflexivity | by apply elem_of_singleton].
Defined.

Lemma load_last_entry pre f post t :
  load (pre ++ f :: post) = Ok t →
  (∀ g, g ∈ post → seg_name_of g ≠ seg_name_of f) →
  ∃ hosts, scan_hosts f = Ok hosts ∧
    dict_get (seg_name_of f) (segment_hosts t) = Some hosts ∧
    dict_get (seg_name_of f) (segment_types t) = Some (seg_type_of f).
Proof.
  unfold load. rewrite for_each_app.
  destruct (for_each load_file no_tables pre) as [t1|e]; [|done].
  simpl. destruct (load_file t1 f) as [t2|e] eqn:Hf; [|done]. simpl.
  apply load_file_same in Hf as (hosts & Hscan & Hh & Hty).
  intros Ht Hpost. exists hosts. split; [done|]. revert Ht.
  apply (for_each_invariant
    (λ t, dict_get (seg_name_of f) (segment_hosts t) = Some hosts ∧
          dict_get (seg_name_of f) (segment_types t) = Some (seg_type_of f)));
    [|done].
  intros s g s' [Hs1 Hs2] Hg Hload.
  destruct (load_file_other _ _ _ (seg_name_of f) Hload) as [-> ->];
    [by apply Hpost | done].
Qed.

Lemma distinct_names_split files f :
  NoDup (seg_name_of <$> files) → f ∈ files →
  ∃ pre post, files = pre ++ f :: post ∧
    ∀ g, g ∈ post → seg_name_of g ≠ seg_name_of f.
Proof.
  intros Hnd (pre & post & ->)%list_elem_of_split.
  exists pre, post. split; [done|]. intros g Hg Heq.
  rewrite fmap_app, fmap_cons in Hnd.
  apply NoDup_app in Hnd as (_ & _ & [Hf _]%NoDup_cons).
  apply Hf. rewrite <- Heq. by apply list_elem_of_fmap_2.
Qed.

(** X12: when the files derive pairwise different segment names, each
    file is its segment: the segment has the file's type, and it reaches a
    host exactly when the file has a reachable-host record for it. *)
Theorem distinct_names_keep_every_file (gnmap_files : list scan_file)
    (t : tables) (f : scan_file) :
  load gnmap_files = Ok t → NoDup (seg_name_of <$> gnmap_files) →
  f ∈ gnmap_files →
  typed t (seg_name_of f) (seg_type_of f) ∧
  ∀ h, reaches t (seg_name_of f) h ↔
       ∃ line, line ∈ file_lines f ∧ host_record line h.
Proof.
  intros Hload Hnd Hf.
  destruct (distinct_names_split _ f Hnd Hf) as (pre & post & -> & Hpost).
  destruct (load_last_entry _ _ _ _ Hload Hpost) as (hosts & Hscan & Hh & Hty).
  split; [done|]. intros h. rewrite <- (scan_hosts_Ok f hosts Hscan h).
  unfold reaches. rewrite Hh. split; [by intros (? & [= <-] & ?) | by exists hosts].
Qed.

Lemma distinct_names_keep_every_file_witness :
  typed dmz_then_corp (seg_name_of pci_dmz) (seg_type_of pci_dmz) ∧
  ∀ h, reaches dmz_then_corp (seg_name_of pci_dmz) h ↔
       ∃ line, line ∈ file_lines pci_dmz ∧ host_record line h.
Proof.
  apply (distinct_names_keep_every_file [pci_dmz; non_pci_corp]).
  - vm_compute. reflexivity.
  - change (NoDup ["DMZ"; "Corp"]).
    apply NoDup_cons. split; [|apply NoDup_singleton].
    intros H%list_elem_of_singleton. discriminate H.
  - left.
Defined.

(** ** Rows and columns *)

(** X13: the rows of both matrices: the host list is in ascending order of
    the address strings, has no address twice, and holds exactly the
    addresses that some segment reaches. *)
Theorem host_rows (set_iter : gset string → list string)
    (gnmap_files : list scan_file) (t : tables) :
  (∀ X, set_iter X ≡ₚ elements X) → load gnmap_files = Ok t →
  Sorted String.le (all_hosts set_iter t) ∧
  NoDup (all_hosts set_iter t) ∧
  ∀ h, h ∈ all_hosts set_iter t ↔ ∃ seg, reaches t seg h.
Proof.
  intros Hperm [Hnd _]%load_loaded. split_and!.
  - apply all_hosts_sorted.
  - by apply all_hosts_NoDup.
  - intros h. by rewrite (elem_of_all_hosts set_iter Hperm), elem_of_host_union.
Qed.

Lemma host_rows_witness :
  Sorted String.le (all_hosts elements dmz_then_corp) ∧
  NoDup (all_hosts elements dmz_then_corp) ∧
  ∀ h, h ∈ all_hosts elements dmz_then_corp ↔ ∃ seg, reaches dmz_then_corp seg h.
Proof.
  apply (host_rows elements [pci_dmz; non_pci_corp]).
  - intros X. reflexivity.
  - vm_compute. reflexivity.
Defined.

Lemma typed_partition (d : list (string * seg_type)) :
  (filter (λ kv, kv.2 = pci) d).*1 ++ (filter (λ kv, kv.2 = non_pci) d).*1
    ++ (filter (λ kv, kv.2 ∉ [pci; non_pci]) d).*1 ≡ₚ d.*1.
Proof.
  induction d as [|[k typ] d IH]; [done|].
  rewrite !filter_cons. cbn [snd].
  destruct typ.
  - rewrite decide_True, decide_False, decide_False by
      (done || intros Hn; apply Hn; repeat constructor).
    rewrite !fmap_cons. cbn [fst app]. by rewrite IH.
  - rewrite decide_False, decide_True, decide_False by
      (done || intros Hn; apply Hn; repeat constructor).
    rewrite !fmap_cons. cbn [fst]. rewrite <- app_comm_cons, <- Permutation_middle.
    by rewrite IH.
  - rewrite decide_False, decide_False, decide_True by
      (done || intros [?|[?|[]%elem_of_nil]%elem_of_cons]%elem_of_cons; done).
    rewrite !fmap_cons. cbn [fst].
    rewrite app_assoc, <- Permutation_middle, <- app_assoc. by rewrite IH.
Qed.

(** X14: the columns of both matrices: every segment is a column exactly
    once; grouping by type only reorders the segments. *)
Theorem columns_are_the_segments (gnmap_files : list scan_file) (t : tables) :
  load gnmap_files = Ok t →
  ordered_segments t ≡ₚ keys (segment_hosts t) ∧ NoDup (ordered_segments t).
Proof.
  intros [Hnd Hkeys]%load_loaded.
  assert (ordered_segments t ≡ₚ keys (segment_hosts t)) as Hperm.
  { rewrite Hkeys. apply typed_partition. }
  split; [done|]. by rewrite Hperm.
Qed.

Lemma columns_are_the_segments_witness :
  ordered_segments corp_then_dmz ≡ₚ keys (segment_hosts corp_then_dmz) ∧
  NoDup (ordered_segments corp_then_dmz).
Proof.
  apply (columns_are_the_segments [non_pci_corp; pci_dmz]).
  vm_compute. reflexivity.
Defined.

(** ** Tiers and concern lines *)

Lemma two_members_length {A : Type} (l : list A) x y :
  x ≠ y → x ∈ l → y ∈ l → 1 < length l.
Proof.
  intros Hne Hx Hy. destruct l as [|z [|z' l]]; simpl; [|  |lia].
  - by apply elem_of_nil in Hx.
  - apply list_elem_of_singleton in Hx, Hy. congruence.
Qed.

(** A segment has one type, so a host with a pci and a non_pci segment has
    two segments. *)
Lemma mixed_types_two_segments t segs :
  has_type t pci segs && has_type t non_pci segs = true → 1 < length segs.
Proof.
  rewrite andb_true_iff, !has_type_true.
  intros [(seg1 & Hin1 & Hty1) (seg2 & Hin2 & Hty2)].
  apply (two_members_length segs seg1 seg2); [|done..].
  intros ->. unfold typed in *. congruence.
Qed.

Lemma host_concerns_by_tier t h :
  (host_concerns t h).*1 =
    match host_tier t h with
    | critical => [yellow; red]
    | elevated => [yellow]
    | normal => []
    end.
Proof.
  unfold host_concerns, host_tier.
  destruct (has_type t pci _ && has_type t non_pci _) eqn:Hmixed.
  - apply mixed_types_two_segments in Hmixed.
    by rewrite (bool_decide_eq_true_2 _ Hmixed).
  - by destruct (bool_decide (1 < length (segments_reaching t h))).
Qed.

(** X15: the concern lines of a host follow its tier: a critical host gets
    two lines, the multiple-segments line and then the PCI/non-PCI line;
    an elevated host gets the multiple-segments line alone; a normal host
    gets none.  The PCI/non-PCI line never comes without the other. *)
Theorem concern_lines_by_tier (t : tables) (h : string) :
  (host_concerns t h).*1 =
    match host_tier t h with
    | critical => [yellow; red]
    | elevated => [yellow]
    | normal => []
    end.
Proof. apply host_concerns_by_tier. Qed.

(** X16: the "no areas of concern" placeholder, printed and written when
    the concern list is empty, stands exactly when every listed host is
    normal. *)
Theorem no_concern_iff_all_normal (t : tables) (hosts : list string) :
  areas_of_concern t hosts = [] ↔ Forall (λ h, host_tier t h = normal) hosts.
Proof.
  unfold areas_of_concern. induction hosts as [|h hosts IH].
  - split; [by constructor | done].
  - rewrite bind_cons, Forall_cons, <- IH.
    pose proof (host_concerns_by_tier t h) as Hh. split.
    + intros [Hnil ?]%app_eq_nil. rewrite Hnil in Hh.
      split; [|done]. by destruct (host_tier t h).
    + intros [Hnormal ->]. rewrite Hnormal in Hh.
      apply fmap_nil_inv in Hh. by rewrite Hh.
Qed.

(** X17: a host of the aggregated union is normal exactly when a single
    segment reaches it. *)
Theorem normal_iff_single_segment (gnmap_files : list scan_file) (t : tables)
    (h : string) :
  load gnmap_files = Ok t → h ∈ host_union t →
  host_tier t h = normal ↔ ∃ seg, ∀ seg', reaches t seg' h ↔ seg' = seg.
Proof.
  intros [Hnd _]%load_loaded Hh.
  apply (elem_of_host_union t h Hnd) in Hh as [seg0 Hseg0].
  pose proof (NoDup_segments_reaching t h Hnd) as Hnd'.
  apply elem_of_segments_reaching in Hseg0.
  unfold host_tier. split.
  - destruct (has_type t pci _ && _); [done|].
    destruct (bool_decide (1 < _)) eqn:Hlen; [done|]. intros _.
    apply bool_decide_eq_false in Hlen.
    destruct (segments_reaching t h) as [|seg [|seg' l]] eqn:Hsegs;
      [by apply elem_of_nil in Hseg0| |simpl in Hlen; lia].
    exists seg. intros seg'.
    by rewrite <- elem_of_segments_reaching, Hsegs, list_elem_of_singleton.
  - intros [seg Hseg].
    assert (length (segments_reaching t h) ≤ 1) as Hlen.
    { destruct (segments_reaching t h) as [|x [|y l]] eqn:Hsegs; simpl; [lia..|].
      exfalso. apply NoDup_cons in Hnd' as [Hx _]. apply Hx.
      assert (x = seg) as ->.
      { apply Hseg, elem_of_segments_reaching. rewrite Hsegs. by left. }
      assert (y = seg) as ->.
      { apply Hseg, elem_of_segments_reaching. rewrite Hsegs. by right; left. }
      by left. }
    destruct (has_type t pci _ && _) eqn:Hmixed.
    + apply mixed_types_two_segments in Hmixed. lia.
    + by rewrite bool_decide_eq_false_2 by lia.
Qed.

Lemma normal_iff_single_segment_witness :
  host_tier corp_then_dmz "10.0.0.5" = normal ↔
  ∃ seg, ∀ seg', reaches corp_then_dmz seg' "10.0.0.5" ↔ seg' = seg.
Proof.
  apply (normal_iff_single_segment [non_pci_corp; pci_dmz]).
  - vm_compute. reflexivity.
  - vm_compute. reflexivity.
Defined.

(** X18: in the HTML header a column is styled by its segment's type: the
    blue cell for a pci segment, the yellow cell for a non_pci one, a
    plain cell otherwise. *)
Theorem html_header_by_type (gnmap_files : list scan_file) (t : tables)
    (seg : string) (typ : seg_type) :
  load gnmap_files = Ok t → typed t seg typ →
  html_header_cell t seg =
    match typ with
    | pci => "<th style='background:#b3d1ff;color:#003366;'>" +:+ seg +:+ "</th>"
    | non_pci => "<th style='background:#fff2cc;color:#7f6000;'>" +:+ seg +:+ "</th>"
    | unknown => "<th>" +:+ seg +:+ "</th>"
    end.
Proof.
  intros [Hnd Hkeys]%load_loaded Hty. rewrite Hkeys in Hnd.
  unfold html_header_cell.
  assert (∀ typ', typed t seg typ' → typ' = typ) as Huniq
    by (unfold typed in *; congruence).
  destruct typ.
  - rewrite bool_decide_eq_true_2; [done|]. by apply elem_of_pci_segments.
  - rewrite bool_decide_eq_false_2, bool_decide_eq_true_2;
      [done | by apply elem_of_non_pci_segments |].
    by intros ?%elem_of_pci_segments%Huniq.
  - rewrite !bool_decide_eq_false_2; [done | |].
    + by intros ?%elem_of_non_pci_segments%Huniq.
    + by intros ?%elem_of_pci_segments%Huniq.
Qed.

Lemma html_header_by_type_witness :
  html_header_cell dmz_then_corp "Corp" =
    "<th style='background:#fff2cc;color:#7f6000;'>" +:+ "Corp" +:+ "</th>".
Proof.
  apply (html_header_by_type [pci_dmz; non_pci_corp] dmz_then_corp "Corp" non_pci).
  - vm_compute. reflexivity.
  - reflexivity.
Defined.

(** ** Outcomes of a run *)

(** X19: a run that has at least one reachable host to list, over files
    that load, returns normally: the text is printed and the HTML report
    is written. *)
Theorem run_completes (set_iter : gset string → list string)
    (gnmap_files : list scan_file) (t : tables) :
  (∀ X, set_iter X ≡ₚ elements X) →
  load gnmap_files = Ok t → host_union t ≠ ∅ →
  ∃ out page,
    run set_iter gnmap_files = (Ok (), {| stdout := out; html := Some page |}).
Proof. apply run_opens. Qed.

Lemma run_completes_witness :
  ∃ out page,
    run elements [pci_dmz; non_pci_corp]
      = (Ok (), {| stdout := out; html := Some page |}).
Proof.
  apply (run_completes elements [pci_dmz; non_pci_corp] dmz_then_corp).
  - intros X. reflexivity.
  - vm_compute. reflexivity.
  - intros Hempty.
    assert ("10.0.0.5" ∈ host_union dmz_then_corp) as Hin by (vm_compute; reflexivity).
    rewrite Hempty in Hin. by apply not_elem_of_empty in Hin.
Defined.

(** X20: files that load but report no reachable host at all stop the run
    like an empty directory does: [ValueError] from the width of the host
    column, with nothing printed and no report written. *)
Theorem no_reachable_host_raises (set_iter : gset string → list string)
    (gnmap_files : list scan_file) (t : tables) :
  (∀ X, set_iter X ≡ₚ elements X) →
  load gnmap_files = Ok t → host_union t = ∅ →
  run set_iter gnmap_files = (Raise ValueError, silent).
Proof.
  intros Hperm Hload Hempty. unfold run, main. rewrite Hload.
  by apply report_no_hosts.
Qed.

Lemma no_reachable_host_raises_witness :
  run elements [{| file_name := "PCI - DMZ.gnmap";
                   file_text := "Host: 10.0.0.5 ()" +:+ TAB +:+ "Status: Up" |}]
    = (Raise ValueError, silent).
Proof.
  apply (no_reachable_host_raises elements _
           {| segment_hosts := [("DMZ", ∅)]; segment_types := [("DMZ", pci)] |}).
  - intros X. reflexivity.
  - vm_compute. reflexivity.
  - vm_compute. reflexivity.
Defined.

(** The exceptions that the statements of the script raise, with what has
    been printed and written by then. *)
Lemma run_Raise (set_iter : gset string → list string)
    (gnmap_files : list scan_file) (e : exn) (w : channels) :
  (∀ X, set_iter X ≡ₚ elements X) →
  run set_iter gnmap_files = (Raise e, w) →
  w = silent ∧
  ((e = IndexError ∧
    ∃ f line, f ∈ gnmap_files ∧ line ∈ file_lines f ∧ malformed line) ∨
   (e = ValueError ∧ ∃ t, load gnmap_files = Ok t ∧ host_union t = ∅)).
Proof.
  intros Hperm. unfold run, main.
  destruct (load gnmap_files) as [t|e'] eqn:Hload.
  - destruct (decide (host_union t = ∅)) as [Hempty|Hhosts].
    + unfold mbind, script_bind, lift.
      rewrite (report_no_hosts set_iter Hperm t _ Hempty).
      intros [= <- <-]. split; [done|]. right. split; [done|]. by exists t.
    + destruct (report_opens set_iter t Hperm (load_loaded _ _ Hload) Hhosts
                  {| stdout := ""; html := None |}) as (w' & Hrun & _).
      unfold mbind, script_bind, lift. by rewrite Hrun.
  - unfold mbind, script_bind, lift. intros [= <- <-]. split; [done|].
    left. by apply load_Raise in Hload.
Qed.

(** X21: the exceptions of the script's own statements come before any
    output.  When the run raises the [IndexError] of [parts[1]], a
    [Host:] line has fewer than two tokens, and nothing has been printed
    or written; when it raises the [ValueError] of [max], the files have
    loaded without a reachable host, and nothing has been printed or
    written; and the dictionary lookups of the two matrices never raise
    [KeyError]. *)
Theorem script_exceptions_precede_output (set_iter : gset string → list string)
    (gnmap_files : list scan_file) (w : channels) :
  (∀ X, set_iter X ≡ₚ elements X) →
  (run set_iter gnmap_files = (Raise IndexError, w) →
   w = silent ∧
   ∃ f line, f ∈ gnmap_files ∧ line ∈ file_lines f ∧ malformed line) ∧
  (run set_iter gnmap_files = (Raise ValueError, w) →
   w = silent ∧ ∃ t, load gnmap_files = Ok t ∧ host_union t = ∅) ∧
  run set_iter gnmap_files ≠ (Raise KeyError, w).
Proof.
  intros Hperm. split_and!.
  - intros [-> [[_ ?]|[[=] _]]]%(run_Raise set_iter _ _ _ Hperm). done.
  - intros [-> [[[=] _]|[_ ?]]]%(run_Raise set_iter _ _ _ Hperm). done.
  - intros [_ [[[=] _]|[[=] _]]]%(run_Raise set_iter _ _ _ Hperm).
Qed.

Lemma script_exceptions_precede_output_witness :
  (run elements [pci_dmz; truncated] = (Raise IndexError, silent) →
   silent = silent ∧
   ∃ f line, f ∈ [pci_dmz; truncated] ∧ line ∈ file_lines f ∧ malformed line) ∧
  (run elements [pci_dmz; truncated] = (Raise ValueError, silent) →
   silent = silent ∧
   ∃ t, load [pci_dmz; truncated] = Ok t ∧ host_union t = ∅) ∧
  run elements [pci_dmz; truncated] ≠ (Raise KeyError, silent).
Proof.
  apply (script_exceptions_precede_output elements [pci_dmz; truncated] silent).
  intros X. reflexivity.
Defined.

(** ** Tokens of a host line *)

Lemma chars_rev_app s1 s2 :
  chars (String.rev_app s1 s2) = reverse (chars s1) ++ chars s2.
Proof.
  revert s2. induction s1 as [|a s1 IH]; intros s2; [done|].
  cbn [String.rev_app]. rewrite IH.
  change (chars (String a s1)) with (a :: chars s1).
  change (chars (String a s2)) with (a :: chars s2).
  by rewrite reverse_cons, <- app_assoc.
Qed.

Lemma chars_rev s : chars (String.rev s) = reverse (chars s).
Proof. unfold String.rev. rewrite chars_rev_app. apply app_nil_r. Qed.

Lemma rev_app_rev_app s t u :
  String.rev_app (String.rev_app s t) u = String.rev_app t (s +:+ u).
Proof.
  revert t. induction s as [|a s IH]; intros t; [done|].
  cbn [String.rev_app]. by rewrite IH.
Qed.

Lemma flush_tokens tok :
  Forall (λ c, Str.isspace c = false) (chars tok) → Forall token (Str.flush tok).
Proof.
  intros Htok. destruct tok as [|a tok]; [by constructor|].
  apply Forall_singleton. split.
  - intros Hnil%(f_equal chars). rewrite chars_rev in Hnil.
    change (chars (String a tok)) with (a :: chars tok) in Hnil.
    rewrite reverse_cons in Hnil. by apply app_eq_nil in Hnil as [_ ?].
  - rewrite chars_rev. by apply Forall_reverse.
Qed.

Lemma split_go_tokens tok s :
  Forall (λ c, Str.isspace c = false) (chars tok) →
  Forall token (Str.split_go tok s).
Proof.
  revert tok. induction s as [|c s IH]; intros tok Htok; cbn [Str.split_go].
  - by apply flush_tokens.
  - destruct (Str.isspace c) eqn:Hc.
    + apply Forall_app. split; [by apply flush_tokens | by apply IH].
    + apply IH. by constructor.
Qed.

Lemma split_tokens s : Forall token (Str.split s).
Proof. apply split_go_tokens. constructor. Qed.

(** X22: every address in the tables, hence every row of the matrices, is
    a token of some line: it is not empty and holds no whitespace. *)
Theorem reached_host_is_token (gnmap_files : list scan_file) (t : tables)
    (seg h : string) :
  load gnmap_files = Ok t → reaches t seg h → token h.
Proof.
  intros Hload (f & line & _ & _ & _ & _ & Hip & _)%(reaches_record gnmap_files).
  - apply list_elem_of_lookup_2 in Hip.
    by apply (proj1 (Forall_forall _ _) (split_tokens line)).
  - done.
Qed.

Lemma reached_host_is_token_witness : token "10.0.0.5".
Proof.
  apply (reached_host_is_token [pci_dmz; non_pci_corp] dmz_then_corp "DMZ").
  - vm_compute. reflexivity.
  - exists {["10.0.0.5"]}. split; [reflexivity | by apply elem_of_singleton].
Defined.

Lemma split_go_word tok w sp rest :
  Forall (λ c, Str.isspace c = false) (chars w) → Str.isspace sp = true →
  Str.split_go tok (w +:+ String sp rest) =
    Str.flush (String.rev_app w tok) ++ Str.split_go "" rest.
Proof.
  intros Hw Hsp. revert tok. induction w as [|c w IH]; intros tok.
  - rewrite app_empty_l. cbn [Str.split_go String.rev_app]. by rewrite Hsp.
  - change (chars (String c w)) with (c :: chars w) in Hw.
    apply Forall_cons in Hw as [Hc Hw].
    rewrite app_cons. cbn [Str.split_go String.rev_app]. rewrite Hc. by apply IH.
Qed.

Lemma flush_rev_app w : w ≠ "" → Str.flush (String.rev_app w "") = [w].
Proof.
  intros Hw. destruct (String.rev_app w "") as [|a r] eqn:Hrev.
  - apply (f_equal chars) in Hrev. rewrite chars_rev_app, app_nil_r in Hrev.
    destruct w as [|c w]; [done|].
    change (chars (String c w)) with (c :: chars w) in Hrev.
    rewrite reverse_cons in Hrev. by apply app_eq_nil in Hrev as [_ ?].
  - cbn [Str.flush]. rewrite <- Hrev. unfold String.rev.
    rewrite rev_app_rev_app. cbn [String.rev_app]. by rewrite app_empty_r.
Qed.

Lemma contains_app_r sub s1 s2 :
  Str.contains sub s2 = true → Str.contains sub (s1 +:+ s2) = true.
Proof.
  intros Hsub. induction s1 as [|c s1 IH]; [done|].
  rewrite app_cons. cbn [Str.contains]. rewrite IH. apply orb_true_r.
Qed.

(** X23: the usual record line.  On a line made of [Host: ], an address
    without whitespace, a space and a remainder, the address is the second
    token; it enters the set as soon as the remainder contains [Ports:]
    and [open] anywhere, in a port state or not. *)
Theorem host_line_adds_address (hosts : gset string) (ip rest : string) :
  token ip →
  Str.contains "Ports:" rest = true → Str.contains "open" rest = true →
  scan_line hosts ("Host: " +:+ ip +:+ " " +:+ rest) = Ok (hosts ∪ {[ ip ]}).
Proof.
  intros [Hne Hip] Hports Hopen. unfold scan_line.
  assert (Str.split ("Host: " +:+ ip +:+ " " +:+ rest)
          = "Host:" :: ip :: Str.split rest) as ->.
  { unfold Str.split.
    change ("Host: " +:+ ip +:+ " " +:+ rest)
      with ("Host:" +:+ String " " (ip +:+ String " " rest)).
    rewrite split_go_word by (done || by repeat constructor).
    rewrite split_go_word by done.
    by rewrite (flush_rev_app ip Hne). }
  change (Str.startswith ("Host: " +:+ ip +:+ " " +:+ rest) "Host:") with true.
  cbn [lookup list_lookup].
  by rewrite !contains_app_r by (by apply contains_app_r).
Qed.

Lemma host_line_adds_address_witness :
  scan_line ∅ ("Host: " +:+ "10.0.0.5" +:+ " " +:+ "(open.example)	Ports: 80/closed/tcp")
    = Ok (∅ ∪ {[ "10.0.0.5" ]}).
Proof.
  apply (host_line_adds_address ∅ "10.0.0.5").
  - split; [done|]. vm_compute. repeat constructor.
  - reflexivity.
  - reflexivity.
Defined.

(** ** Trimmed segment names *)

Lemma lstrip_head s c :
  head (chars (Str.lstrip s)) = Some c → Str.isspace c = false.
Proof.
  induction s as [|a s IH]; [done|]. cbn [Str.lstrip].
  destruct (Str.isspace a) eqn:Ha; [done|]. by intros [= <-].
Qed.

Lemma lstrip_suffix s : chars (Str.lstrip s) `suffix_of` chars s.
Proof.
  induction s as [|a s IH]; [done|]. cbn [Str.lstrip].
  destruct (Str.isspace a); [|done].
  change (chars (String a s)) with (a :: chars s). by apply suffix_cons_r.
Qed.

Lemma chars_rstrip s :
  chars (Str.rstrip s) = reverse (chars (Str.lstrip (String.rev s))).
Proof. unfold Str.rstrip. apply chars_rev. Qed.

Lemma rstrip_prefix s : chars (Str.rstrip s) `prefix_of` chars s.
Proof.
  rewrite chars_rstrip.
  pose proof (lstrip_suffix (String.rev s)) as Hsuffix.
  rewrite chars_rev in Hsuffix. apply suffix_prefix_reverse in Hsuffix.
  by rewrite reverse_involutive in Hsuffix.
Qed.

Lemma strip_trimmed s : trimmed (Str.strip s).
Proof.
  unfold Str.strip. split; intros c Hc.
  - apply (lstrip_head s).
    destruct (rstrip_prefix (Str.lstrip s)) as [k Hk].
    apply head_Some in Hc as [l Hl]. rewrite Hk, Hl. done.
  - rewrite chars_rstrip, last_reverse in Hc. by apply lstrip_head in Hc.
Qed.

(** X24: the name of a segment classified pci or non_pci is trimmed: it
    neither starts nor ends with whitespace.  (An unknown segment keeps
    its base as it is.) *)
Theorem classified_name_is_trimmed (filename : string) (typ : seg_type)
    (name : string) :
  parse_segment filename = (typ, name) → typ ≠ unknown → trimmed name.
Proof.
  unfold parse_segment.
  destruct (Str.startswith _ "pci -"); [intros [= <- <-] _; apply strip_trimmed|].
  destruct (Str.startswith _ "non pci -"); [intros [= <- <-] _; apply strip_trimmed|].
  by intros [= <- <-].
Qed.

Lemma classified_name_is_trimmed_witness : trimmed "DMZ".
Proof.
  apply (classified_name_is_trimmed "PCI -   DMZ  .gnmap" pci "DMZ").
  - reflexivity.
  - done.
Defined.

(** * The file-name rule in full *)

Lemma chars_inj s1 s2 : chars s1 = chars s2 → s1 = s2.
Proof.
  intros Heq. rewrite <- (String.string_of_list_ascii_of_string s1),
    <- (String.string_of_list_ascii_of_string s2).
  unfold chars in Heq. by rewrite Heq.
Qed.

Lemma chars_cons c s : chars (String c s) = c :: chars s.
Proof. done. Qed.

Lemma length_chars s : length (chars s) = String.length s.
Proof. induction s as [|c s IH]; [done|]. rewrite chars_cons. simpl. by rewrite IH. Qed.

(** ** Remainders and trimming *)

Lemma slice_from_remainder n s : remainder_after n s (Str.slice_from n s).
Proof.
  revert s. induction n as [|n IH]; intros s.
  - left. by exists "".
  - destruct s as [|c s]; [right; simpl; split; [lia|done]|].
    cbn [Str.slice_from]. destruct (IH s) as [(pre & Hs & Hlen)|[Hlen ->]].
    + left. exists (String c pre). rewrite app_cons, <- Hs. simpl. by rewrite Hlen.
    + right. simpl. split; [lia|done].
Qed.

Lemma lstrip_split s :
  ∃ l, s = l +:+ Str.lstrip s ∧ Forall (λ c, Str.isspace c = true) (chars l).
Proof.
  induction s as [|c s (l & Hs & Hl)]; [by exists ""|].
  cbn [Str.lstrip]. destruct (Str.isspace c) eqn:Hc.
  - exists (String c l). rewrite app_cons, <- Hs. split; [done|].
    rewrite chars_cons. by constructor.
  - by exists "".
Qed.

Lemma rstrip_split s :
  ∃ r, s = Str.rstrip s +:+ r ∧ Forall (λ c, Str.isspace c = true) (chars r).
Proof.
  destruct (lstrip_split (String.rev s)) as (l & Hs & Hl).
  exists (String.rev l). split.
  - apply chars_inj. apply (f_equal chars) in Hs.
    rewrite chars_app, chars_rev in Hs.
    rewrite chars_app, chars_rstrip, chars_rev, <- reverse_app, <- Hs.
    by rewrite reverse_involutive.
  - rewrite chars_rev. by apply Forall_reverse.
Qed.

Lemma strip_stripped s : stripped_of s (Str.strip s).
Proof.
  destruct (lstrip_split s) as (l & Hs & Hl).
  destruct (rstrip_split (Str.lstrip s)) as (r & Hr & Hr').
  exists l, r. split_and!; [|done..|apply strip_trimmed].
  unfold Str.strip. by rewrite <- Hr.
Qed.

(** ** The last occurrence of a character *)

Lemma last_occurrence c s :
  c ∈ chars s → ∃ a b, s = a +:+ String c b ∧ c ∉ chars b.
Proof.
  induction s as [|x s IH]; [by intros ?%elem_of_nil|].
  rewrite chars_cons. intros Hin.
  destruct (decide (c ∈ chars s)) as [Hs|Hs].
  - destruct (IH Hs) as (a & b & -> & Hb). by exists (String x a), b.
  - apply elem_of_cons in Hin as [->|?]; [|done]. by exists "", s.
Qed.

Lemma rfind_absent c s : c ∉ chars s → Str.rfind c s = (-1)%Z.
Proof. apply rfind_go_absent. Qed.

Lemma rfind_last c a b :
  c ∉ chars b → Str.rfind c (a +:+ String c b) = Z.of_nat (String.length a).
Proof.
  intros Hb. unfold Str.rfind. rewrite rfind_go_app. cbn [Str.rfind_go].
  rewrite decide_True by done. rewrite rfind_go_absent by done. lia.
Qed.

Lemma last_occurrence_unique c a b a' b' :
  a +:+ String c b = a' +:+ String c b' → c ∉ chars b → c ∉ chars b' →
  a = a' ∧ b = b'.
Proof.
  intros Heq Hb Hb'.
  assert (Z.of_nat (String.length a) = Z.of_nat (String.length a')) as Hlen.
  { rewrite <- (rfind_last c a b Hb), <- (rfind_last c a' b' Hb'). by rewrite Heq. }
  apply (f_equal chars) in Heq. rewrite !chars_app, !chars_cons in Heq.
  apply app_inj_1 in Heq as [Ha [= Hb'']]; [|rewrite !length_chars; lia].
  split; by apply chars_inj.
Qed.

(** ** Extensions *)

Lemma all_dots_Forall s :
  all_dots s = true ↔ Forall (λ c, c = "."%char) (chars s).
Proof.
  induction s as [|c s IH]; [by split; [constructor|]|].
  rewrite chars_cons, Forall_cons. cbn [all_dots].
  by rewrite andb_true_iff, bool_decide_eq_true, IH.
Qed.

Lemma all_dots_false s :
  all_dots s = false ↔ ∃ c, c ∈ chars s ∧ c ≠ "."%char.
Proof.
  rewrite <- not_true_iff_false, all_dots_Forall, <- Exists_Forall_neg, Exists_exists;
    [done|]. intros c. destruct (decide (c = "."%char)); auto.
Qed.

Lemma occurrence c s : c ∈ chars s → ∃ u v, s = u +:+ String c v.
Proof.
  induction s as [|x s IH]; [by intros ?%elem_of_nil|].
  rewrite chars_cons. intros [->|(u & v & ->)%IH]%elem_of_cons.
  - by exists "", s.
  - by exists (String x u), v.
Qed.

Lemma last_component a :
  ∃ d m, a = d +:+ m ∧
    String.length d = Z.to_nat (Str.rfind "/" a + 1) ∧
    ("/"%char ∉ chars m) ∧ (d = "" ∨ ∃ d', d = d' +:+ "/").
Proof.
  destruct (decide ("/"%char ∈ chars a)) as [Hin|Hout].
  - apply last_occurrence in Hin as (d' & n & -> & Hn).
    rewrite rfind_last by done.
    exists (d' +:+ "/"), n. split_and!; [|rewrite length_app_str; simpl; lia|done|].
    + by rewrite app_assoc_str.
    + right. by exists d'.
  - rewrite rfind_absent by done. exists "", a. by split_and!; [..|left].
Qed.

Lemma stem_last_component d m :
  "/"%char ∉ chars m → (d = "" ∨ ∃ d', d = d' +:+ "/") →
  all_dots m = false ↔ has_stem (d +:+ m).
Proof.
  intros Hm Hd. rewrite all_dots_false. split.
  - intros (c & Hc & Hdot). destruct (occurrence c m Hc) as (u & v & ->).
    exists (d +:+ u), c, v. rewrite app_assoc_str.
    rewrite chars_app, chars_cons in Hm.
    split_and!; [done..| |].
    + intros ->. apply Hm. apply elem_of_app. right. by left.
    + intros Hv. apply Hm. apply elem_of_app. right. by right.
  - intros (u & c & v & Heq & Hdot & Hsep & Hv). exists c. split; [|done].
    apply (f_equal chars) in Heq. rewrite !chars_app, chars_cons in Heq.
    apply app_eq_inv in Heq as [(k & Hd' & Hv')|(k & Hu & Hm')].
    + destruct k as [|x k].
      * rewrite app_nil_l in Hv'. rewrite <- Hv'. by left.
      * exfalso. injection Hv' as <- Hv'.
        destruct Hd as [->|[d' ->]]; [by destruct (chars u)|].
        rewrite chars_app in Hd'. change (chars "/") with ["/"%char] in Hd'.
        destruct (decide (k = [])) as [->|Hk].
        -- apply app_inj_2 in Hd' as [_ [= <-]]; [done|done].
        -- apply Hv. rewrite Hv'. apply elem_of_app. left.
           destruct (exists_last Hk) as (k' & y & ->).
           rewrite app_comm_cons, !app_assoc in Hd'.
           apply app_inj_2 in Hd' as [_ [= <-]]; [|done].
           apply elem_of_app. right. by left.
    + rewrite Hm'. apply elem_of_app. right. by left.
Qed.

Lemma rfind_go_ge c s i last :
  (last ≤ i)%Z → (last ≤ Str.rfind_go c s i last)%Z.
Proof.
  revert i last. induction s as [|a s IH]; intros i last Hlast; [done|].
  cbn [Str.rfind_go].
  pose proof (IH (i + 1)%Z (if decide (a = c) then i else last)) as Hs.
  destruct (decide (a = c)); lia.
Qed.

Lemma splitext_no_extension p :
  (∀ b x, p = b +:+ x → extension x → ¬ has_stem b) →
  splits_extension p p "".
Proof. intros Hnone. split; [by rewrite app_empty_r | by right]. Qed.

Lemma splitext_spec p : splits_extension p (splitext p).1 (splitext p).2.
Proof.
  unfold splitext.
  destruct (decide ("."%char ∈ chars p)) as [Hdot|Hnodot].
  - apply last_occurrence in Hdot as (a & e & -> & He).
    assert (∀ b x, a +:+ String "." e = b +:+ x → extension x →
                   b = a ∧ x = String "." e) as Huniq.
    { intros b x Heq (e' & -> & He' & _).
      by apply last_occurrence_unique in Heq as [-> ->]. }
    rewrite (rfind_last "." a e He).
    destruct (decide ("/"%char ∈ chars e)) as [Hsep|Hnosep].
    + apply last_occurrence in Hsep as (e1 & e2 & -> & He2).
      replace (a +:+ String "." (e1 +:+ String "/" e2))
        with ((a +:+ String "." e1) +:+ String "/" e2)
        by (by rewrite app_assoc_str).
      rewrite (rfind_last "/" _ e2 He2), length_app_str.
      rewrite bool_decide_eq_false_2 by (simpl; lia). cbn [fst snd].
      apply splitext_no_extension. intros b x Heq Hx.
      rewrite app_assoc_str in Heq. cbn [String.append] in Heq.
      destruct (Huniq b x Heq Hx) as [-> ->].
      destruct Hx as (e' & [= <-] & _ & He'). destruct He'.
      rewrite chars_app, chars_cons. apply elem_of_app. right. by left.
    + assert (Str.rfind "/" (a +:+ String "." e) = Str.rfind "/" a) as Hsame.
      { unfold Str.rfind. rewrite rfind_go_app. apply rfind_go_absent.
        rewrite chars_cons, not_elem_of_cons. by split. }
      rewrite Hsame.
      pose proof (rfind_go_bound "/" a 0 (-1)) as Hlt.
      pose proof (rfind_go_ge "/" a 0 (-1)) as Hge.
      fold (Str.rfind "/" a) in Hlt, Hge.
      rewrite bool_decide_eq_true_2 by lia.
      destruct (last_component a) as (d & m & -> & Hd & Hm & Hdir).
      assert (Str.slice (Str.rfind "/" (d +:+ m) + 1)
                (Z.of_nat (String.length (d +:+ m)))
                ((d +:+ m) +:+ String "." e) = m) as ->.
      { unfold Str.slice. rewrite <- Hd, app_assoc_str, slice_from_app.
        replace (Z.to_nat _) with (String.length m)
          by (rewrite length_app_str; lia).
        apply slice_to_app. }
      destruct (all_dots m) eqn:Hdots; cbn [fst snd].
      * apply splitext_no_extension. intros b x Heq Hx.
        destruct (Huniq b x Heq Hx) as [-> _].
        rewrite <- (stem_last_component d m Hm Hdir). by rewrite Hdots.
      * unfold Str.slice. rewrite Z.sub_0_r, Nat2Z.id.
        change (Z.to_nat 0) with 0. cbn [Str.slice_from].
        rewrite slice_to_app, slice_from_app. split; [done|]. left. split.
        -- by exists e.
        -- by apply (stem_last_component d m Hm Hdir).
  - rewrite (rfind_absent "." p Hnodot).
    pose proof (rfind_go_ge "/" p 0 (-1)) as Hge. fold (Str.rfind "/" p) in Hge.
    rewrite bool_decide_eq_false_2 by lia. cbn [fst snd].
    apply splitext_no_extension. intros b x -> (e & -> & _) _.
    apply Hnodot. rewrite chars_app, chars_cons. apply elem_of_app. right. by left.
Qed.

(** The split is determined by the path. *)
Lemma splits_extension_unique p base ext base' ext' :
  splits_extension p base ext → splits_extension p base' ext' →
  base = base' ∧ ext = ext'.
Proof.
  intros [Hp [[(e & -> & He & Hs) Hstem]|[-> Hnone]]]
         [Hp' [[(e' & -> & He' & Hs') Hstem']|[-> Hnone']]].
  - rewrite Hp in Hp'.
    by apply last_occurrence_unique in Hp' as [-> ->].
  - destruct (Hnone' base (String "." e) Hp); [by exists e | done].
  - destruct (Hnone base' (String "." e') Hp'); [by exists e' | done].
  - rewrite app_empty_r in Hp, Hp'. by subst.
Qed.

Lemma lower_same_letter a b :
  a ∈ chars "pci -no" →
  bool_decide (Str.lower_char a = Str.lower_char b) = bool_decide (same_letter a b).
Proof.
  intros Ha. vm_compute in Ha.
  repeat (apply elem_of_cons in Ha as [->|Ha]);
    [..|by apply elem_of_nil in Ha];
    destruct b as [[] [] [] [] [] [] [] []]; vm_compute; reflexivity.
Qed.

Lemma starts_ci_prefix p s :
  Forall (λ a, a ∈ chars "pci -no") (chars p) →
  Str.starts_ci p s = true ↔ ci_prefix p s.
Proof.
  revert s. induction p as [|a p IH]; intros [|b s] Hp; simpl; try done.
  rewrite chars_cons in Hp. apply Forall_cons in Hp as [Ha Hp].
  rewrite andb_true_iff, (lower_same_letter a b Ha), bool_decide_eq_true.
  by rewrite IH.
Qed.

Lemma starts_ci_pci s : Str.starts_ci "pci -" s = true ↔ ci_prefix "pci -" s.
Proof.
  apply starts_ci_prefix. apply Forall_forall. intros a Ha.
  vm_compute in Ha. vm_compute.
  repeat (apply elem_of_cons in Ha as [->|Ha]); [..|by apply elem_of_nil in Ha];
    repeat first [by left | right].
Qed.

Lemma starts_ci_non_pci s :
  Str.starts_ci "non pci -" s = true ↔ ci_prefix "non pci -" s.
Proof.
  apply starts_ci_prefix. apply Forall_forall. intros a Ha.
  vm_compute in Ha. vm_compute.
  repeat (apply elem_of_cons in Ha as [->|Ha]); [..|by apply elem_of_nil in Ha];
    repeat first [by left | right].
Qed.

(** C7: the derived pair.  With the base being the file name without its
    extension: when the base starts, letter case aside, with [pci -], the
    type is [pci] and the name is what remains after the first six
    characters, without leading and trailing whitespace; when it starts,
    letter case aside, with [non pci -], the type is [non_pci] and the
    name is what remains after the first ten characters, trimmed likewise;
    otherwise the type is [unknown] and the name is the whole base. *)
Theorem parse_segment_rule (filename : string) :
  ∃ base ext, splits_extension filename base ext ∧
    (ci_prefix "pci -" base →
     ∃ rest name, remainder_after 6 base rest ∧ stripped_of rest name ∧
       parse_segment filename = (pci, name)) ∧
    (ci_prefix "non pci -" base →
     ∃ rest name, remainder_after 10 base rest ∧ stripped_of rest name ∧
       parse_segment filename = (non_pci, name)) ∧
    (¬ ci_prefix "pci -" base → ¬ ci_prefix "non pci -" base →
     parse_segment filename = (unknown, base)).
Proof.
  exists (splitext filename).1, (splitext filename).2.
  split; [apply splitext_spec|].
  unfold parse_segment, Str.startswith. rewrite !prefix_lower_ci by done.
  set (base := (splitext filename).1).
  rewrite <- starts_ci_pci, <- starts_ci_non_pci.
  destruct (Str.starts_ci "pci -" base) eqn:Hpci.
  - split_and!; [|by intros ?%starts_ci_non_pci_not_pci; congruence|done].
    intros _. exists (Str.slice_from 6 base), (Str.strip (Str.slice_from 6 base)).
    split_and!; [apply slice_from_remainder | apply strip_stripped | done].
  - destruct (Str.starts_ci "non pci -" base) eqn:Hnon.
    + split_and!; [done| |done].
      intros _. exists (Str.slice_from 10 base), (Str.strip (Str.slice_from 10 base)).
      split_and!; [apply slice_from_remainder | apply strip_stripped | done].
    + by split_and!.
Qed.

(** * The two rendered matrices *)

(** ** What the renderers print and write *)

Lemma channels_eta w : {| stdout := stdout w; html := html w |} = w.
Proof. by destruct w. Qed.

Lemma prints_print s : prints (print s) (s +:+ NL).
Proof. by intros w. Qed.

Lemma prints_ret : prints (mret ()) "".
Proof. intros w. by rewrite app_empty_r, channels_eta. Qed.

Lemma prints_seq (m k : script unit) a b :
  prints m a → prints k b → prints (m;; k) (a +:+ b).
Proof.
  intros Hm Hk w. unfold mbind, script_bind. rewrite Hm, Hk. simpl.
  by rewrite app_assoc_str.
Qed.

Lemma prints_lift {A : Type} (r : result A) (k : A → script unit) a out :
  r = Ok a → prints (k a) out → prints (x ← lift r; k x) out.
Proof. intros -> Hk w. apply Hk. Qed.

Lemma prints_for_ {A : Type} (l : list A) (body : A → script unit)
    (f : A → string) :
  (∀ x, x ∈ l → prints (body x) (f x)) → prints (for_ l body) (cat (f <$> l)).
Proof.
  induction l as [|x l IH]; intros Hbody; [apply prints_ret|].
  cbn [for_]. rewrite fmap_cons. apply prints_seq; [apply Hbody; by left|].
  apply IH. intros y Hy. apply Hbody. by right.
Qed.

Lemma appends_fwrite s : appends (fwrite s) s.
Proof. by intros w. Qed.

Lemma appends_ret : appends (mret ()) "".
Proof.
  intros w. unfold mret, script_ret. f_equal. destruct w as [out [page|]]; simpl;
    [by rewrite app_empty_r | done].
Qed.

Lemma appends_seq (m k : script unit) a b :
  appends m a → appends k b → appends (m;; k) (a +:+ b).
Proof.
  intros Hm Hk w. unfold mbind, script_bind. rewrite Hm, Hk. simpl.
  destruct (html w) as [page|]; simpl; [by rewrite app_assoc_str | done].
Qed.

Lemma appends_lift {A : Type} (r : result A) (k : A → script unit) a doc :
  r = Ok a → appends (k a) doc → appends (x ← lift r; k x) doc.
Proof. intros -> Hk w. apply Hk. Qed.

Lemma appends_for_ {A : Type} (l : list A) (body : A → script unit)
    (f : A → string) :
  (∀ x, x ∈ l → appends (body x) (f x)) → appends (for_ l body) (cat (f <$> l)).
Proof.
  induction l as [|x l IH]; intros Hbody; [apply appends_ret|].
  cbn [for_]. rewrite fmap_cons. apply appends_seq; [apply Hbody; by left|].
  apply IH. intros y Hy. apply Hbody. by right.
Qed.

Lemma writes_fopen (m : script unit) doc : appends m doc → writes (fopen;; m) doc.
Proof. intros Hm w. unfold mbind, script_bind. cbn [fopen]. by rewrite Hm. Qed.

(** A block that prints (appends) [a], then the rows, then more. *)
Lemma prints_before (m k : script unit) a rows :
  prints m a → (∃ head, prints k (head +:+ rows)) →
  ∃ head, prints (m;; k) (head +:+ rows).
Proof.
  intros Hm [head Hk]. exists (a +:+ head). rewrite app_assoc_str.
  by apply prints_seq.
Qed.

Lemma appends_before (m k : script unit) a rows :
  appends m a → (∃ top bottom, appends k (top +:+ rows +:+ bottom)) →
  ∃ top bottom, appends (m;; k) (top +:+ rows +:+ bottom).
Proof.
  intros Hm (top & bottom & Hk). exists (a +:+ top), bottom.
  rewrite app_assoc_str. by apply appends_seq.
Qed.

Lemma appends_after (m k : script unit) rows b :
  appends m rows → appends k b →
  ∃ top bottom, appends (m;; k) (top +:+ rows +:+ bottom).
Proof.
  intros Hm Hk. exists "", b. rewrite app_empty_l. by apply appends_seq.
Qed.

(** ** The cells of a row *)

Lemma text_cell_mark t h seg :
  loaded t → seg ∈ ordered_segments t → text_cell t h seg = Ok (text_mark t h seg).
Proof.
  intros Hload Hseg. unfold text_cell, text_mark, host_in, getitem.
  pose proof (ordered_segments_keys t seg Hload Hseg) as Hkey.
  destruct (dict_get seg (segment_hosts t)) as [hosts|] eqn:Hget;
    [|by apply dict_get_None in Hget].
  simpl. by destruct (bool_decide (h ∈ hosts)).
Qed.

Lemma html_cell_mark t h seg :
  loaded t → seg ∈ ordered_segments t → html_cell t h seg = Ok (html_mark t h seg).
Proof.
  intros Hload Hseg. unfold html_cell, html_mark, host_in, getitem.
  pose proof (ordered_segments_keys t seg Hload Hseg) as Hkey.
  destruct (dict_get seg (segment_hosts t)) as [hosts|] eqn:Hget;
    [|by apply dict_get_None in Hget].
  simpl. by destruct (bool_decide (h ∈ hosts)).
Qed.

Lemma marks_agree t h seg :
  strip_ansi (text_mark t h seg) = td_text (html_mark t h seg) ∧
  (reaches t seg h → strip_ansi (text_mark t h seg) = "X") ∧
  (¬ reaches t seg h → strip_ansi (text_mark t h seg) = "-").
Proof.
  unfold text_mark, html_mark.
  destruct (host_in t h seg) eqn:Hin.
  - rewrite strip_ansi_text_cell, td_text_html_cell. split_and!; [done..|].
    intros []. by apply host_in_reaches.
  - split_and!; [done| |done].
    intros Hreach%host_in_reaches. congruence.
Qed.

Lemma text_row_marks t w2 h segs row :
  (∀ seg, seg ∈ segs → text_cell t h seg = Ok (text_mark t h seg)) →
  for_each (λ row segment,
              cell ← text_cell t h segment; Ok (row +:+ pad_cell cell w2))
           row segs
  = Ok (row +:+ cat ((λ c, pad_cell c w2) <$> (text_mark t h <$> segs))).
Proof.
  revert row. induction segs as [|seg segs IH]; intros row Hcells.
  - simpl. by rewrite app_empty_r.
  - cbn [for_each]. rewrite Hcells by (by left). simpl.
    rewrite IH by (intros ? ?; apply Hcells; by right).
    by rewrite app_assoc_str.
Qed.

Lemma html_row_marks t h segs :
  (∀ seg, seg ∈ segs → html_cell t h seg = Ok (html_mark t h seg)) →
  appends (for_ segs (λ segment, cell ← lift (html_cell t h segment); fwrite cell))
          (cat (html_mark t h <$> segs)).
Proof.
  intros Hcells.
  rewrite <- (list_fmap_id (html_mark t h <$> segs)), <- list_fmap_compose.
  apply appends_for_. intros seg Hseg.
  apply (appends_lift _ _ _ _ (Hcells seg Hseg)), appends_fwrite.
Qed.

Lemma print_matrix_rows t hosts w1 w2 :
  loaded t →
  ∃ head, prints (print_matrix t hosts w1 w2)
                 (head +:+ text_matrix_rows w1 w2 hosts
                             (λ h, text_mark t h <$> ordered_segments t)).
Proof.
  intros Hload. unfold print_matrix. cbv zeta.
  eapply prints_before; [apply prints_print|].
  eapply prints_before; [apply prints_print|].
  eapply prints_before; [apply prints_print|].
  exists "". rewrite app_empty_l. unfold text_matrix_rows.
  apply prints_for_. intros h _.
  unfold text_row.
  rewrite (text_row_marks t w2 h)
    by (intros seg Hseg; by apply text_cell_mark).
  cbn [mbind script_bind lift].
  eapply prints_lift; [done|].
  rewrite <- !app_assoc_str. apply prints_print.
Qed.

Lemma appends_concerns t hosts :
  ∃ doc, appends
    match areas_of_concern t hosts with
    | [] => fwrite ("<div>No areas of concern detected based on current matrix.</div>"
                    +:+ NL)
    | concerns => for_ concerns (λ c, fwrite (html_concern c))
    end doc.
Proof.
  destruct (areas_of_concern t hosts) as [|c concerns].
  - eexists. apply appends_fwrite.
  - exists (cat (html_concern <$> c :: concerns)).
    apply appends_for_. intros c' _. apply appends_fwrite.
Qed.

Lemma writes_fopen_rows (m : script unit) rows :
  (∃ top bottom, appends m (top +:+ rows +:+ bottom)) →
  ∃ top bottom, writes (fopen;; m) (top +:+ rows +:+ bottom).
Proof. intros (top & bottom & Hm). exists top, bottom. by apply writes_fopen. Qed.

Lemma write_html_rows t hosts :
  loaded t →
  ∃ top bottom, writes (write_html t hosts)
    (top +:+ html_matrix_rows hosts (λ h, html_mark t h <$> ordered_segments t)
         +:+ bottom).
Proof.
  intros Hload. destruct (appends_concerns t hosts) as [cdoc Hc].
  unfold write_html. apply writes_fopen_rows.
  repeat (eapply appends_before; [apply appends_fwrite|]).
  eapply appends_before.
  { apply (appends_for_ _ _ (html_header_cell t)). intros seg _. apply appends_fwrite. }
  eapply appends_before; [apply appends_fwrite|].
  eapply appends_after.
  - unfold html_matrix_rows. apply appends_for_. intros h _.
    replace ("<tr><td>" +:+ h +:+ "</td>"
             +:+ cat (html_mark t h <$> ordered_segments t) +:+ "</tr>" +:+ NL)
      with (("<tr><td>" +:+ h +:+ "</td>")
            +:+ cat (html_mark t h <$> ordered_segments t) +:+ "</tr>" +:+ NL)
      by (by rewrite !app_assoc_str).
    apply appends_seq; [apply appends_fwrite|].
    apply appends_seq; [|apply appends_fwrite].
    apply html_row_marks. intros seg Hseg. by apply html_cell_mark.
  - repeat (eapply appends_seq; [apply appends_fwrite|]).
    eapply appends_seq; [apply Hc | apply appends_fwrite].
Qed.


